(** * pdf_artwork_extractor: artwork metadata extraction from gallery PDFs

    A shallow embedding of [src/pdf_artwork_extractor.py] and the properties
    of its page classifier, image selector and field extractor.

    Text is a sequence of code points of the range U+0000..U+00FF, held in
    [string] (one [ascii] per code point); the two non-ASCII characters the
    source mentions, the copyright sign U+00A9 and the multiplication sign
    U+00D7, lie in that range.  The character classes below are Python's
    ([str.isspace], [str.isdigit], [str.lower], and the [re] module's
    [\d], [\s], [\w]) restricted to that range.

    The confidence score is a binary64 float, as in the source: the
    division by [5.0] and the comparison with [0.6] are the kernel's float
    operations.  Integers of Python are [Z] (image sizes) or [nat] (lengths,
    indices, page numbers). *)

From Stdlib Require Import Bool Arith Lia List String Ascii ZArith.
From Stdlib Require Import Floats Uint63 Permutation Sorted.
Import ListNotations.

Local Open Scope string_scope.
Local Open Scope list_scope.
Local Open Scope nat_scope.

Set Warnings "-inexact-float".

(** ** Characters *)

Module Chars.

Definition code (c : ascii) : nat := nat_of_ascii c.

Definition in_range (lo hi : nat) (c : ascii) : bool :=
  (lo <=? code c) && (code c <=? hi).

Definition is_code (n : nat) (c : ascii) : bool := code c =? n.

(** [\d]: the decimal digits. *)
Definition is_decimal (c : ascii) : bool := in_range 48 57 c.

(** [str.isspace] and [\s]: TAB..CR, FS..US, SPACE, NEL, NBSP. *)
Definition isspace (c : ascii) : bool :=
  in_range 9 13 c || in_range 28 32 c || is_code 133 c || is_code 160 c.

(** One character of [str.isdigit]: decimal digits and the superscripts
    two, three and one. *)
Definition isdigit_char (c : ascii) : bool :=
  is_decimal c || is_code 178 c || is_code 179 c || is_code 185 c.

(** [\w]: alphanumeric characters and the underscore. *)
Definition is_word (c : ascii) : bool :=
  is_decimal c || in_range 65 90 c || in_range 97 122 c || is_code 95 c
  || is_code 170 c || is_code 178 c || is_code 179 c || is_code 181 c
  || is_code 185 c || is_code 186 c || in_range 188 190 c
  || in_range 192 214 c || in_range 216 246 c || in_range 248 255 c.

(** One character of [str.lower]. *)
Definition lower (c : ascii) : ascii :=
  if in_range 65 90 c || (in_range 192 222 c && negb (is_code 215 c))
  then ascii_of_nat (code c + 32) else c.

Definition copyright_sign : ascii := ascii_of_nat 169.
Definition times_sign : ascii := ascii_of_nat 215.

End Chars.

(** ** Python's string operations *)

Module Str.

Definition chars (s : string) : list ascii := list_ascii_of_string s.
Definition of_chars (l : list ascii) : string := string_of_list_ascii l.

(** Truth value of a [str]: non-empty. *)
Definition truthy (s : string) : bool :=
  match s with EmptyString => false | String _ _ => true end.

(** Truth value of an [Optional[str]]. *)
Definition truthy_opt (o : option string) : bool :=
  match o with None => false | Some s => truthy s end.

Fixpoint lstrip (l : list ascii) : list ascii :=
  match l with
  | c :: l' => if Chars.isspace c then lstrip l' else l
  | [] => []
  end.

(** [s.strip()] *)
Definition strip (s : string) : string :=
  of_chars (rev (lstrip (rev (lstrip (chars s))))).

(** [s.isdigit()]: at least one character, all of them digits. *)
Definition isdigit (s : string) : bool :=
  truthy s && forallb Chars.isdigit_char (chars s).

(** [s.lower()] *)
Definition lower (s : string) : string :=
  of_chars (map Chars.lower (chars s)).

Fixpoint is_prefix (p l : list ascii) : bool :=
  match p, l with
  | [], _ => true
  | a :: p', b :: l' => Ascii.eqb a b && is_prefix p' l'
  | _ :: _, [] => false
  end.

(** [sub in s] *)
Fixpoint contains_chars (sub l : list ascii) : bool :=
  is_prefix sub l ||
  match l with
  | [] => false
  | _ :: l' => contains_chars sub l'
  end.

Definition contains (sub s : string) : bool :=
  contains_chars (chars sub) (chars s).

(** [s.split(sep)] for a non-empty [sep]: [skip] counts the characters of
    a separator occurrence still to be passed over, [cur] is the current
    piece, last character first. *)
Fixpoint split_go (sep : list ascii) (skip : nat) (cur l : list ascii)
  : list string :=
  match l with
  | [] => [of_chars (rev cur)]
  | c :: l' =>
      match skip with
      | S k => split_go sep k cur l'
      | O =>
          if is_prefix sep l
          then of_chars (rev cur) :: split_go sep (List.length sep - 1) [] l'
          else split_go sep 0 (c :: cur) l'
      end
  end.

Definition split (sep s : string) : list string :=
  split_go (chars sep) 0 [] (chars s).

(** [[p.strip() for p in s.split(sep) if p.strip()]] *)
Definition stripped_parts (sep s : string) : list string :=
  map strip (filter (fun p => truthy (strip p)) (split sep s)).

Definition newline : string := String (ascii_of_nat 10) EmptyString.

End Str.

(** ** Regular expressions: the backtracking matcher of Python's [re] *)

Module Re.

Inductive regex : Type :=
| Eps : regex
| Class : (ascii -> bool) -> regex
| Cat : regex -> regex -> regex
| Alt : regex -> regex -> regex
| Star : regex -> regex
| WordB : regex.

Definition Opt (r : regex) : regex := Alt r Eps.
Definition Plus (r : regex) : regex := Cat r (Star r).

Definition lit (c : ascii) : regex := Class (Ascii.eqb c).

(** A literal under [re.IGNORECASE]. *)
Definition lit_i (c : ascii) : regex :=
  Class (fun x => Ascii.eqb (Chars.lower x) (Chars.lower c)).

Fixpoint word (mk : ascii -> regex) (s : string) : regex :=
  match s with
  | EmptyString => Eps
  | String c EmptyString => mk c
  | String c s' => Cat (mk c) (word mk s')
  end.

Definition digit : regex := Class Chars.is_decimal.
Definition space : regex := Class Chars.isspace.

Definition word_opt (o : option ascii) : bool :=
  match o with Some c => Chars.is_word c | None => false end.

(** A greedy repetition of [body], at most [fuel] times; an iteration
    that consumes nothing is refused, which bounds the repetitions by the
    length of the input. *)
Fixpoint star_loop {A : Type}
  (body : option ascii -> list ascii ->
          (option ascii -> list ascii -> option A) -> option A)
  (k : option ascii -> list ascii -> option A)
  (fuel : nat) (prev : option ascii) (l : list ascii) : option A :=
  match fuel with
  | O => k prev l
  | S fuel' =>
      match body prev l
              (fun p' l' =>
                 if List.length l' <? List.length l
                 then star_loop body k fuel' p' l' else None) with
      | Some x => Some x
      | None => k prev l
      end
  end.

(** [rmatch r prev l k]: match [r] at the front of [l], the character
    before being [prev]; alternatives are tried in order, repetition is
    greedy, and [k] receives the last character passed and the rest of the
    input. *)
Fixpoint rmatch {A : Type} (r : regex) (prev : option ascii) (l : list ascii)
  (k : option ascii -> list ascii -> option A) {struct r} : option A :=
  match r with
  | Eps => k prev l
  | Class p =>
      match l with
      | c :: l' => if p c then k (Some c) l' else None
      | [] => None
      end
  | Cat r1 r2 => rmatch r1 prev l (fun p' l' => rmatch r2 p' l' k)
  | Alt r1 r2 =>
      match rmatch r1 prev l k with
      | Some x => Some x
      | None => rmatch r2 prev l k
      end
  | Star r1 =>
      star_loop (fun p' l' k' => rmatch r1 p' l' k') k (List.length l) prev l
  | WordB =>
      if xorb (word_opt prev) (word_opt (hd_error l)) then k prev l else None
  end.

(** Whether every match of [r] passes at least one character. *)
Fixpoint consuming (r : regex) : bool :=
  match r with
  | Eps | Star _ | WordB => false
  | Class _ => true
  | Cat r1 r2 => consuming r1 || consuming r2
  | Alt r1 r2 => consuming r1 && consuming r2
  end.

(** The leftmost match: [group(0)] of [pattern.search]. *)
Fixpoint search_from (r : regex) (prev : option ascii) (l : list ascii)
  : option (list ascii) :=
  match rmatch r prev l (fun _ rest => Some rest) with
  | Some rest => Some (firstn (List.length l - List.length rest) l)
  | None =>
      match l with
      | [] => None
      | c :: l' => search_from r (Some c) l'
      end
  end.

Definition search (r : regex) (s : string) : option string :=
  option_map Str.of_chars (search_from r None (Str.chars s)).

(** [bool(pattern.search(s))] *)
Definition matches (r : regex) (s : string) : bool :=
  match search r s with Some _ => true | None => false end.

End Re.

(** ** The artwork record and the extractor's patterns *)

Declare Scope regex_scope.
Delimit Scope regex_scope with re.
Infix "+++" := Re.Cat (at level 60, right associativity) : regex_scope.
Infix "<|>" := Re.Alt (at level 70, right associativity) : regex_scope.

(** [@dataclass class Artwork] *)
Record Artwork : Type := mkArtwork {
  title : string;
  artist : string;
  year : string;
  dimensions : string;
  medium : string;
  price : option string;
  image_path : option string;
  image_data : option string;
  page_number : nat;
  confidence_score : float
}.

(** [Artwork(page_number=n)] *)
Definition new_artwork (n : nat) : Artwork :=
  {| title := ""; artist := ""; year := ""; dimensions := ""; medium := "";
     price := None; image_path := None; image_data := None;
     page_number := n; confidence_score := 0%float |}.

Section Patterns.
Import Re.
Local Open Scope regex_scope.

(** [\b(19|20)\d{2}\b] *)
Definition year_pattern : regex :=
  WordB +++ (word lit "19" <|> word lit "20") +++ digit +++ digit +++ WordB.

(** [\d+(\.\d+)?] *)
Definition number : regex := Plus digit +++ Opt (lit "." +++ Plus digit).

(** [\s*[x×]\s*], ignoring case *)
Definition by_sign : regex :=
  Star space
  +++ Class (fun c => Ascii.eqb (Chars.lower c) "x"
                      || Ascii.eqb (Chars.lower c) Chars.times_sign)
  +++ Star space.

(** [\b\d+(\.\d+)?\s*[x×]\s*\d+(\.\d+)?(\s*[x×]\s*\d+(\.\d+)?)?\s*(cm|in|inches|mm)\b],
    ignoring case *)
Definition dimensions_pattern : regex :=
  WordB +++ number +++ by_sign +++ number +++ Opt (by_sign +++ number)
  +++ Star space
  +++ (word lit_i "cm" <|> word lit_i "in" <|> word lit_i "inches"
       <|> word lit_i "mm")
  +++ WordB.

(** [\d{1,3}(?:,\d{3})*(?:\.\d+)?] *)
Definition amount : regex :=
  (digit +++ Opt (digit +++ Opt digit))
  +++ Star (lit "," +++ digit +++ digit +++ digit)
  +++ Opt (lit "." +++ Plus digit).

(** [\$\s*\d{1,3}(?:,\d{3})*(?:\.\d+)?|\d{1,3}(?:,\d{3})*(?:\.\d+)?\s*(?:USD|EUR|GBP)],
    ignoring case *)
Definition price_pattern : regex :=
  (lit "$" +++ Star space +++ amount)
  <|> (amount +++ Star space
       +++ (word lit_i "USD" <|> word lit_i "EUR" <|> word lit_i "GBP")).

End Patterns.

Definition separators : list string := [","; "|"; "  "; Str.newline].

Definition metadata_indicators : list string :=
  ["page"; "copyright"; String Chars.copyright_sign ""; "all rights";
   "gallery"; "contact"; "email"; "phone"; "website"; "www"].

(** [is_likely_metadata] *)
Definition is_likely_metadata (text : string) : bool :=
  let text_lower := Str.lower text in
  existsb (fun indicator => Str.contains indicator text_lower)
          metadata_indicators.

(** ** Fields, and the trace of an extraction

    The strategies mutate one [Artwork] object.  Each assignment to one of
    its six descriptive fields is recorded, with the value the field held
    before, so that what a strategy did to the record can be stated.  The
    trace also records the entry into [extract_artwork_info_from_text]
    and into each strategy, the message of a skipped page, and the files
    written.  The other progress messages are left out. *)

Inductive field : Type := Title | Artist | Year | Dimensions | Medium | Price.

Inductive strategy : Type := LineBreak | Inline.

Inductive event : Type :=
| FieldExtractor (text : string) (page_num : nat)
| Invoke (s : strategy)
| Assign (f : field) (before : option string) (v : string)
| PrintSkip (page : nat)
| WriteImage (path bytes : string)
| WriteJson (path : string) (records : list Artwork).

Definition field_eqb (f g : field) : bool :=
  match f, g with
  | Title, Title | Artist, Artist | Year, Year | Dimensions, Dimensions
  | Medium, Medium | Price, Price => true
  | _, _ => false
  end.

Definition get_field (f : field) (a : Artwork) : option string :=
  match f with
  | Title => Some (title a)
  | Artist => Some (artist a)
  | Year => Some (year a)
  | Dimensions => Some (dimensions a)
  | Medium => Some (medium a)
  | Price => price a
  end.

(** [artwork.<f> = v] *)
Definition set_field (f : field) (v : string) (a : Artwork) : Artwork :=
  match f with
  | Title =>
      mkArtwork v (artist a) (year a) (dimensions a) (medium a) (price a)
        (image_path a) (image_data a) (page_number a) (confidence_score a)
  | Artist =>
      mkArtwork (title a) v (year a) (dimensions a) (medium a) (price a)
        (image_path a) (image_data a) (page_number a) (confidence_score a)
  | Year =>
      mkArtwork (title a) (artist a) v (dimensions a) (medium a) (price a)
        (image_path a) (image_data a) (page_number a) (confidence_score a)
  | Dimensions =>
      mkArtwork (title a) (artist a) (year a) v (medium a) (price a)
        (image_path a) (image_data a) (page_number a) (confidence_score a)
  | Medium =>
      mkArtwork (title a) (artist a) (year a) (dimensions a) v (price a)
        (image_path a) (image_data a) (page_number a) (confidence_score a)
  | Price =>
      mkArtwork (title a) (artist a) (year a) (dimensions a) (medium a)
        (Some v)
        (image_path a) (image_data a) (page_number a) (confidence_score a)
  end.

Definition set_confidence_score (x : float) (a : Artwork) : Artwork :=
  mkArtwork (title a) (artist a) (year a) (dimensions a) (medium a) (price a)
    (image_path a) (image_data a) (page_number a) x.

Definition set_image (path data : string) (a : Artwork) : Artwork :=
  mkArtwork (title a) (artist a) (year a) (dimensions a) (medium a) (price a)
    (Some path) (Some data) (page_number a) (confidence_score a).

(** The record under construction and the events so far, oldest first. *)
Record pstate : Type := mkState { art : Artwork; trace : list event }.

Definition emit (e : event) (st : pstate) : pstate :=
  {| art := art st; trace := trace st ++ [e] |}.

Definition assign (f : field) (v : string) (st : pstate) : pstate :=
  {| art := set_field f v (art st);
     trace := trace st ++ [Assign f (get_field f (art st)) v] |}.

(** [if f:] for a field of the record *)
Definition is_set (f : field) (a : Artwork) : bool :=
  Str.truthy_opt (get_field f a).

(** ** The two parsing strategies *)

(** [fields_found = sum(1 for f in [title, artist, year, dimensions, medium] if f)] *)
Definition fields_found (a : Artwork) : nat :=
  List.length
    (filter Str.truthy [title a; artist a; year a; dimensions a; medium a]).

Definition float_of_nat (n : nat) : float :=
  PrimFloat.of_uint63 (Uint63.of_Z (Z.of_nat n)).

(** [artwork.confidence_score = fields_found / 5.0] *)
Definition score_fields (st : pstate) : pstate :=
  {| art := set_confidence_score
              (float_of_nat (fields_found (art st)) / 5)%float (art st);
     trace := trace st |}.

(** [artwork.confidence_score > 0.6] *)
Definition clears_threshold (a : Artwork) : bool :=
  (0.6 <? confidence_score a)%float.

(** The first loop of [parse_artwork_linebreak_format], over [lines[:5]]. *)
Fixpoint scan_artist_title (lines : list string)
  (found_artist found_title : bool) (st : pstate) : pstate :=
  match lines with
  | [] => st
  | line :: rest =>
      if (String.length line <? 3) || Str.isdigit line
      then scan_artist_title rest found_artist found_title st
      else if negb found_artist && negb (is_likely_metadata line)
      then scan_artist_title rest true found_title (assign Artist line st)
      else if found_artist && negb found_title
              && negb (is_likely_metadata line)
      then scan_artist_title rest found_artist true (assign Title line st)
      else if found_artist && found_title
      then st
      else scan_artist_title rest found_artist found_title st
  end.

(** [if not artwork.<f>: m = pattern.search(s); if m: artwork.<f> = m.group(0)] *)
Definition fill_from_pattern (f : field) (pattern : Re.regex) (s : string)
  (st : pstate) : pstate :=
  if negb (is_set f (art st))
  then match Re.search pattern s with
       | Some m => assign f m st
       | None => st
       end
  else st.

Definition no_pattern_matches (s : string) : bool :=
  negb (Re.matches year_pattern s)
  && negb (Re.matches dimensions_pattern s)
  && negb (Re.matches price_pattern s).

(** The medium of the line-break format. *)
Definition fill_medium_line (line : string) (st : pstate) : pstate :=
  if negb (is_set Medium (art st)) && negb (is_likely_metadata line)
     && (5 <? String.length line)
  then if no_pattern_matches line
       then if negb (String.eqb line (artist (art st)))
               && negb (String.eqb line (title (art st)))
            then assign Medium line st
            else st
       else st
  else st.

(** The body of the second loop of [parse_artwork_linebreak_format]. *)
Definition scan_line (st : pstate) (line0 : string) : pstate :=
  let line := Str.strip line0 in
  if negb (Str.truthy line) then st
  else
    fill_medium_line line
      (fill_from_pattern Price price_pattern line
         (fill_from_pattern Dimensions dimensions_pattern line
            (fill_from_pattern Year year_pattern line st))).

(** [parse_artwork_linebreak_format] *)
Definition parse_artwork_linebreak_format (text : string) (st0 : pstate)
  : pstate * bool :=
  let st := emit (Invoke LineBreak) st0 in
  let lines := Str.stripped_parts Str.newline text in
  let st := scan_artist_title (firstn 5 lines) false false st in
  let st := fold_left scan_line lines st in
  let st := score_fields st in
  (st, clears_threshold (art st)).

(** The medium of the inline format. *)
Definition fill_medium_part (part : string) (st : pstate) : pstate :=
  if negb (is_set Medium (art st)) && negb (is_likely_metadata part)
     && (5 <? String.length part)
  then if no_pattern_matches part then assign Medium part st else st
  else st.

(** The body of the loop over [parts[2:]]. *)
Definition scan_part (st : pstate) (part : string) : pstate :=
  fill_medium_part part
    (fill_from_pattern Price price_pattern part
       (fill_from_pattern Dimensions dimensions_pattern part
          (fill_from_pattern Year year_pattern part st))).

(** One separator's attempt on at least three parts, up to the score. *)
Definition inline_attempt (parts : list string) (st : pstate) : pstate :=
  let st :=
    if negb (is_set Artist (art st))
    then assign Artist (nth 0 parts "") st else st in
  let st :=
    if negb (is_set Title (art st))
    then assign Title (nth 1 parts "") st else st in
  let st := fold_left scan_part (skipn 2 parts) st in
  score_fields st.

(** The loop of [parse_artwork_inline_format] over the separators. *)
Fixpoint inline_loop (seps : list string) (text : string) (st : pstate)
  : pstate * bool :=
  match seps with
  | [] => (st, false)
  | separator :: rest =>
      let parts := Str.stripped_parts separator text in
      if 3 <=? List.length parts
      then
        let st' := inline_attempt parts st in
        if clears_threshold (art st') then (st', true)
        else inline_loop rest text st'
      else inline_loop rest text st
  end.

(** [parse_artwork_inline_format] *)
Definition parse_artwork_inline_format (text : string) (st0 : pstate)
  : pstate * bool :=
  inline_loop separators text (emit (Invoke Inline) st0).

(** [self.parse_artwork_linebreak_format(text, artwork) or
    self.parse_artwork_inline_format(text, artwork)]: the second strategy
    runs, on the same record, only when the first returns false. *)
Definition try_strategies (text : string) (st : pstate) : pstate * bool :=
  let (st1, ok) := parse_artwork_linebreak_format text st in
  if ok then (st1, true) else parse_artwork_inline_format text st1.

(** ** Pages, images and the extractor *)

(** What [doc.extract_image(xref)] returns. *)
Record BaseImage : Type := mkBaseImage {
  base_width : Z;
  base_height : Z;
  base_image : string;
  base_ext : string
}.

(** The [image_data] dictionaries of [extract_images]. *)
Record Image : Type := mkImage {
  xref : nat;
  width : Z;
  height : Z;
  image_bytes : string;
  extension : string
}.

Record Page : Type := mkPage {
  get_text : string;
  get_images : list nat
}.

Record Document : Type := mkDocument {
  pages : list Page;
  extract_image : nat -> option BaseImage
}.

(** [class PDFArtworkExtractor]: [pdf_path] is the stem of the path. *)
Record PDFArtworkExtractor : Type := mkExtractor {
  pdf_path : string;
  doc : Document;
  artworks : list Artwork
}.

Definition SAVE_IMAGES : bool := true.

Definition area (i : Image) : Z := (width i * height i)%Z.

(** [images.sort(key=lambda x: x["width"] * x["height"], reverse=True)]:
    the sort is stable, also when reversed; an insertion sort that puts an
    element before the first one whose key is not larger gives that
    order. *)
Fixpoint insert_by_area (x : Image) (l : list Image) : list Image :=
  match l with
  | [] => [x]
  | y :: l' =>
      if (area y <=? area x)%Z then x :: l else y :: insert_by_area x l'
  end.

Fixpoint sort_by_area (l : list Image) : list Image :=
  match l with
  | [] => []
  | x :: l' => insert_by_area x (sort_by_area l')
  end.

(** The body of the loop of [extract_images]: what one [xref] appends. *)
Definition image_of_xref (d : Document) (x : nat) : list Image :=
  match extract_image d x with
  | Some b =>
      let image_data :=
        {| xref := x; width := base_width b; height := base_height b;
           image_bytes := base_image b; extension := base_ext b |} in
      if (100 <? width image_data)%Z && (100 <? height image_data)%Z
      then [image_data] else []
  | None => []
  end.

(** [extract_images] *)
Definition extract_images (d : Document) (page : Page) : list Image :=
  sort_by_area (flat_map (image_of_xref d) (get_images page)).

(** [is_main_artwork_page] *)
Definition is_main_artwork_page (text : string) : bool :=
  let has_dimensions := Re.matches dimensions_pattern text in
  let has_year := Re.matches year_pattern text in
  has_dimensions && has_year.

(** [split_page_into_sections] *)
Definition split_page_into_sections (page : Page) (images : list Image)
  : list (string * option Image) :=
  let page_text := get_text page in
  match images with
  | [] => [(page_text, None)]
  | _ => map (fun image => (page_text, Some image)) (firstn 1 images)
  end.

Definition is_empty {A : Type} (l : list A) : bool :=
  match l with [] => true | _ :: _ => false end.

Section Extractor.

(** The file name of a saved image,
    [str(IMAGE_OUTPUT_DIR / sanitize_filename(f"{stem}_page{p}_artwork{n}.{ext}"))],
    and [base64.b64encode(...).decode('utf-8')]. *)
Variable image_file : string -> nat -> nat -> string -> string.
Variable b64encode : string -> string.

(** [extract_artwork_info_from_text]: the events of the call are added to
    those before it. *)
Definition extract_artwork_info_from_text (self : PDFArtworkExtractor)
  (text : string) (page_num : nat) (image : option Image) (tr : list event)
  : option Artwork * list event :=
  let st0 := {| art := new_artwork (page_num + 1);
                trace := [FieldExtractor text page_num] |} in
  let (st, ok) := try_strategies text st0 in
  if ok then
    match image with
    | Some img =>
        if SAVE_IMAGES then
          let img_ext := extension img in
          let img_path :=
            image_file (pdf_path self) (page_num + 1)
              (List.length (artworks self) + 1) img_ext in
          let img_b64 := b64encode (image_bytes img) in
          let data := ("data:image/" ++ img_ext ++ ";base64," ++ img_b64)%string in
          (Some (set_image img_path data (art st)),
           tr ++ trace st ++ [WriteImage img_path (image_bytes img)])
        else (Some (art st), tr ++ trace st)
    | None => (Some (art st), tr ++ trace st)
    end
  else (None, tr ++ trace st).

(** [extract_artwork_info] *)
Definition extract_artwork_info (self : PDFArtworkExtractor) (page : Page)
  (page_num : nat) (image : option Image) (tr : list event)
  : option Artwork * list event :=
  let text := get_text page in
  extract_artwork_info_from_text self text page_num image tr.

(** The loop of [process_page] over the sections. *)
Fixpoint process_sections (self : PDFArtworkExtractor) (page_num : nat)
  (sections : list (string * option Image)) (found : list Artwork)
  (tr : list event) : list Artwork * list event :=
  match sections with
  | [] => (found, tr)
  | (section_text, image) :: rest =>
      let (artwork, tr1) :=
        extract_artwork_info_from_text self section_text page_num image tr in
      match artwork with
      | Some a => process_sections self page_num rest (found ++ [a]) tr1
      | None => process_sections self page_num rest found tr1
      end
  end.

(** [process_page] *)
Definition process_page (self : PDFArtworkExtractor) (page : Page)
  (page_num : nat) (tr : list event) : list Artwork * list event :=
  let text := get_text page in
  let images := extract_images (doc self) page in
  if is_empty images
     || ((2000 <? String.length text) && (List.length images <? 2))
  then ([], tr ++ [PrintSkip (page_num + 1)])
  else if (List.length images =? 1)
          || ((0 <? List.length images) && is_main_artwork_page text)
  then
    let (artwork, tr1) :=
      extract_artwork_info self page page_num (hd_error images) tr in
    match artwork with
    | Some a => ([a], tr1)
    | None => ([], tr1)
    end
  else if 1 <? List.length images
  then
    let sections := split_page_into_sections page images in
    process_sections self page_num sections [] tr
  else ([], tr).

(** [self.artworks.extend(artworks)] *)
Definition extend_artworks (self : PDFArtworkExtractor) (l : list Artwork)
  : PDFArtworkExtractor :=
  {| pdf_path := pdf_path self; doc := doc self;
     artworks := artworks self ++ l |}.

(** The loop of [extract_all] over [enumerate(self.doc)]. *)
Fixpoint extract_pages (ps : list Page) (page_num : nat)
  (self : PDFArtworkExtractor) (tr : list event)
  : PDFArtworkExtractor * list event :=
  match ps with
  | [] => (self, tr)
  | page :: rest =>
      let (found, tr1) := process_page self page page_num tr in
      extract_pages rest (page_num + 1) (extend_artworks self found) tr1
  end.

(** [extract_all]: the extractor afterwards (its [artworks] are what the
    method returns) and the events. *)
Definition extract_all (self : PDFArtworkExtractor) (tr : list event)
  : PDFArtworkExtractor * list event :=
  extract_pages (pages (doc self)) 0 self tr.

(** ** The batch *)

(** A path of the input directory with what [pymupdf.open] does on it:
    the document, or [None] when it raises. *)
Definition pdf_file : Type := (string * option Document)%type.

Inductive outcome : Type :=
| Returned (all_artworks : list Artwork)
| Raised (file : string).

(** [artwork['image_data'][:100] + '...'] when longer than 100 *)
Definition preview (a : Artwork) : Artwork :=
  match image_data a with
  | Some d =>
      if Str.truthy d && (100 <? String.length d)
      then mkArtwork (title a) (artist a) (year a) (dimensions a) (medium a)
             (price a) (image_path a)
             (Some (String.substring 0 100 d ++ "...")%string)
             (page_number a) (confidence_score a)
      else a
  | None => a
  end.

(** The loop of [process_pdf_files] over [file_list], and the summary
    after it.  [PDFArtworkExtractor(file_path)] opens the document; nothing
    around it catches what it raises.  A file is named by the stem of its
    path, and an output file by its name within [OUTPUT_DIR]. *)
Fixpoint process_files (file_list : list pdf_file)
  (all_artworks : list Artwork) (tr : list event) : outcome * list event :=
  match file_list with
  | [] =>
      if is_empty all_artworks then (Returned all_artworks, tr)
      else (Returned all_artworks,
            tr ++ [WriteJson "all_artworks.json" (map preview all_artworks)])
  | (file_path, opened) :: rest =>
      match opened with
      | None => (Raised file_path, tr)
      | Some d =>
          let extractor :=
            {| pdf_path := file_path; doc := d; artworks := [] |} in
          let (extractor', tr1) := extract_all extractor tr in
          let found := artworks extractor' in
          let output_file := (file_path ++ "_artworks.json")%string in
          process_files rest (all_artworks ++ found)
            (tr1 ++ [WriteJson output_file (map preview found)])
      end
  end.

(** [process_pdf_files] *)
Definition process_pdf_files (file_list : list pdf_file)
  : outcome * list event :=
  process_files file_list [] [].

End Extractor.

(** ** Reading a trace *)

(** The values assigned to field [f], in order. *)
Fixpoint assigned (f : field) (tr : list event) : list string :=
  match tr with
  | [] => []
  | Assign g _ v :: tr' =>
      if field_eqb f g then v :: assigned f tr' else assigned f tr'
  | _ :: tr' => assigned f tr'
  end.

(** The strategies entered, in order. *)
Fixpoint invoked (tr : list event) : list strategy :=
  match tr with
  | [] => []
  | Invoke s :: tr' => s :: invoked tr'
  | _ :: tr' => invoked tr'
  end.

(** The texts handed to the field extractor, in order. *)
Fixpoint extractor_calls (tr : list event) : list string :=
  match tr with
  | [] => []
  | FieldExtractor text _ :: tr' => text :: extractor_calls tr'
  | _ :: tr' => extractor_calls tr'
  end.

(** The pages reported as skipped, in order. *)
Fixpoint skipped (tr : list event) : list nat :=
  match tr with
  | [] => []
  | PrintSkip p :: tr' => p :: skipped tr'
  | _ :: tr' => skipped tr'
  end.

(** An event that does not overwrite: anything but an assignment to a
    field that held a non-empty value. *)
Definition no_overwrite (e : event) : bool :=
  match e with
  | Assign _ before _ => negb (Str.truthy_opt before)
  | _ => true
  end.

(** The record agrees with the trace: a field never assigned is empty, a
    field assigned holds the one non-empty value it was given. *)
Definition agrees (f : field) (st : pstate) : Prop :=
  match assigned f (trace st) with
  | [] => is_set f (art st) = false
  | [v] => get_field f (art st) = Some v /\ Str.truthy v = true
  | _ :: _ :: _ => False
  end.

Definition coherent (st : pstate) : Prop :=
  forallb no_overwrite (trace st) = true /\ forall f, agrees f st.

(** [fills st st']: [st'] comes from [st] by assignments to fields that
    were empty, of non-empty values, and by recomputations of the score. *)
Inductive fills (st : pstate) : pstate -> Prop :=
| fills_refl : fills st st
| fills_assign : forall st' f v,
    fills st st' -> is_set f (art st') = false -> Str.truthy v = true ->
    fills st (assign f v st')
| fills_score : forall st', fills st st' -> fills st (score_fields st').

(** The score the source computes from the five fields. *)
Definition score_of (a : Artwork) : float :=
  (float_of_nat (fields_found a) / 5)%float.

(** Two records that differ at most in their image. *)
Definition same_description (a b : Artwork) : Prop :=
  (forall f, get_field f a = get_field f b)
  /\ confidence_score a = confidence_score b
  /\ page_number a = page_number b.

(** The state a call of the field extractor starts from. *)
Definition start (text : string) (page_num : nat) : pstate :=
  {| art := new_artwork (page_num + 1);
     trace := [FieldExtractor text page_num] |}.

(** The three scenario texts. *)
Definition scenario1 : string :=
  "Jane Doe" ++ Str.newline ++ "Sunset Over the Bay" ++ Str.newline
  ++ "oil on canvas" ++ Str.newline ++ "24 x 36 in" ++ Str.newline
  ++ "2019" ++ Str.newline ++ "$4,500".

Definition scenario3 : string :=
  "Mary Smith, Blue Horizon, acrylic on canvas, 2021, 30x40 cm".

(** A text whose comma attempt fills artist and title and fails, and whose
    bar attempt then succeeds. *)
Definition two_separators : string :=
  "Ann, Bob, Cy|Blue|oil on canvas|30x40 cm".

(** ** Notions the properties are stated with *)

(** The record's score is the one its five fields give. *)
Definition scored (a : Artwork) : Prop := confidence_score a = score_of a.

(** A record a strategy accepted. *)
Definition accepted (a : Artwork) : Prop :=
  scored a /\ clears_threshold a = true.

(** The condition under which [process_page] skips a page. *)
Definition skip_condition (text : string) (images : list Image) : Prop :=
  images = [] \/ (2000 < String.length text /\ List.length images < 2).

(** Files that all open. *)
Definition opened (good : list (string * Document)) : list pdf_file :=
  map (fun f => (fst f, Some (snd f))) good.

(** The summary [process_pdf_files] writes after its loop. *)
Definition summary (all_artworks : list Artwork) : list event :=
  if is_empty all_artworks then []
  else [WriteJson "all_artworks.json" (map preview all_artworks)].

(** The images of a page the document can extract, in the order the page
    lists them, before any is dropped for its size. *)
Definition raw_images (d : Document) (page : Page) : list Image :=
  flat_map
    (fun x => match extract_image d x with
              | Some b => [mkImage x (base_width b) (base_height b)
                             (base_image b) (base_ext b)]
              | None => []
              end)
    (get_images page).

Definition large (i : Image) : bool :=
  (100 <? width i)%Z && (100 <? height i)%Z.

Definition larger_first (a b : Image) : Prop := (area b <= area a)%Z.

Definition has_area (k : Z) (i : Image) : bool := (area i =? k)%Z.

(** A one-page catalogue: the text of scenario 1 and one image of 500 by
    500 pixels. *)
Definition catalog : Document :=
  {| pages := [ {| get_text := scenario1; get_images := [7] |} ];
     extract_image := fun x =>
       if x =? 7 then Some (mkBaseImage 500 500 "bytes" "png") else None |}.

Definition sample_image_file (stem : string) (page n : nat) (ext : string)
  : string := (stem ++ "." ++ ext)%string.

Definition sample_b64encode (bytes : string) : string := bytes.

(** The paths of the JSON files written, in order. *)
Fixpoint written (tr : list event) : list string :=
  match tr with
  | [] => []
  | WriteJson path _ :: tr' => path :: written tr'
  | _ :: tr' => written tr'
  end.

(** ** File names *)

Module Path.

(** [invalid_chars]: less-than, greater-than, colon, double quote, slash,
    backslash, bar, question mark, star. *)
Definition invalid_chars : string :=
  "<>:" ++ String (ascii_of_nat 34) "/\|?*".

(** [c.isascii()] *)
Definition isascii (c : ascii) : bool := Chars.code c <? 128.

(** [c.isprintable()]: everything but the control characters, the
    no-break space and the soft hyphen. *)
Definition isprintable (c : ascii) : bool :=
  Chars.in_range 32 126 c
  || (Chars.in_range 161 255 c && negb (Chars.is_code 173 c)).

(** [filename.replace(char, '_')] for a one-character [char] *)
Definition replace_char (old : ascii) (filename : string) : string :=
  Str.of_chars
    (map (fun c => if Ascii.eqb c old then "_"%char else c)
       (Str.chars filename)).

(** [p.rfind(c)], with [None] for -1 *)
Fixpoint rfind_go (c : ascii) (i : nat) (last : option nat) (l : list ascii)
  : option nat :=
  match l with
  | [] => last
  | x :: l' => rfind_go c (S i) (if Ascii.eqb x c then Some i else last) l'
  end.

Definition rfind (c : ascii) (p : string) : option nat :=
  rfind_go c 0 None (Str.chars p).

(** [os.path.splitext] of [posixpath]: the extension starts at the last
    dot, when that dot comes after the last slash and after a character of
    the file name that is not a dot. *)
Definition splitext (p : string) : string * string :=
  let sepIndex := rfind "/" p in
  let dotIndex := rfind "." p in
  match dotIndex with
  | Some d =>
      let filenameIndex :=
        match sepIndex with Some s => s + 1 | None => 0 end in
      if match sepIndex with Some s => s <? d | None => true end
      then
        if existsb (fun c => negb (Ascii.eqb c "."))
             (firstn (d - filenameIndex) (skipn filenameIndex (Str.chars p)))
        then (Str.of_chars (firstn d (Str.chars p)),
              Str.of_chars (skipn d (Str.chars p)))
        else (p, "")
      else (p, "")
  | None => (p, "")
  end.

(** The first two steps of [sanitize_filename]: the invalid characters,
    then whatever is not printable ASCII, become underscores. *)
Definition clean (filename : string) : string :=
  let filename :=
    fold_left (fun f char => replace_char char f)
      (Str.chars invalid_chars) filename in
  Str.of_chars
    (map (fun c => if isascii c && isprintable c then c else "_"%char)
       (Str.chars filename)).

(** [sanitize_filename] *)
Definition sanitize_filename (filename : string) : string :=
  let filename := clean filename in
  if 200 <? String.length filename
  then
    let (base, ext) := splitext filename in
    (Str.of_chars (firstn 196 (Str.chars base)) ++ ext)%string
  else filename.

(** What the two cleaning steps do to one character. *)
Definition clean_char (c : ascii) : ascii :=
  let c' := if existsb (Ascii.eqb c) (Str.chars invalid_chars)
            then "_"%char else c in
  if isascii c' && isprintable c' then c' else "_"%char.

(** A character [sanitize_filename] lets through. *)
Definition safe (c : ascii) : bool :=
  Chars.in_range 32 126 c
  && negb (existsb (Ascii.eqb c) (Str.chars invalid_chars)).

End Path.

(** ** What a pattern matches, and what a field may hold *)

(** Concatenations of strings of [P]. *)
Inductive star_of (P : list ascii -> Prop) : list ascii -> Prop :=
| star_of_nil : star_of P []
| star_of_app : forall m1 m2,
    P m1 -> star_of P m2 -> star_of P (m1 ++ m2).

(** The strings of a pattern, word boundaries left aside. *)
Fixpoint lang (r : Re.regex) (m : list ascii) : Prop :=
  match r with
  | Re.Eps | Re.WordB => m = []
  | Re.Class p => exists c, m = [c] /\ p c = true
  | Re.Cat r1 r2 =>
      exists m1 m2, m = m1 ++ m2 /\ lang r1 m1 /\ lang r2 m2
  | Re.Alt r1 r2 => lang r1 m \/ lang r2 m
  | Re.Star r1 => star_of (lang r1) m
  end.

(** [m] occurs in [s]. *)
Definition substring_of (m s : string) : Prop :=
  exists pre post, Str.chars s = pre ++ Str.chars m ++ post.

(** Four characters: 19 or 20, then two decimal digits. *)
Definition year_shape (v : string) : Prop :=
  exists c d,
    Chars.is_decimal c = true /\ Chars.is_decimal d = true
    /\ (v = String "1" (String "9" (String c (String d "")))
        \/ v = String "2" (String "0" (String c (String d "")))).

(** What the medium of a record is like. *)
Definition medium_shape (v : string) : Prop :=
  is_likely_metadata v = false
  /\ 5 < String.length v
  /\ no_pattern_matches v = true.

(** What a non-empty value of field [f] is like, for a record extracted
    from [text]. *)
Definition field_ok (text : string) (f : field) (v : string) : Prop :=
  substring_of v text
  /\ match f with
     | Year => year_shape v
     | Medium => medium_shape v
     | _ => True
     end.

Definition well_formed (text : string) (a : Artwork) : Prop :=
  forall f v, get_field f a = Some v -> Str.truthy v = true ->
              field_ok text f v.

(** The record a page gives, as a list. *)
Definition record_list (o : option Artwork) : list Artwork :=
  match o with Some a => [a] | None => [] end.

(** The records [extract_all] returns for a document, from a new
    extractor. *)
Definition document_records
  (image_file : string -> nat -> nat -> string -> string)
  (b64encode : string -> string) (f : string * Document) : list Artwork :=
  artworks (fst (extract_all image_file b64encode
                   (mkExtractor (fst f) (snd f) []) [])).

(** The JSON files written, each with the records it holds, in order. *)
Fixpoint json_writes (tr : list event) : list (string * list Artwork) :=
  match tr with
  | [] => []
  | WriteJson path records :: tr' => (path, records) :: json_writes tr'
  | _ :: tr' => json_writes tr'
  end.

(** The image files written, each with its bytes, in order. *)
Fixpoint image_writes (tr : list event) : list (string * string) :=
  match tr with
  | [] => []
  | WriteImage path bytes :: tr' => (path, bytes) :: image_writes tr'
  | _ :: tr' => image_writes tr'
  end.

(** [image_data] as [extract_artwork_info_from_text] builds it. *)
Definition data_url (b64encode : string -> string) (img : Image) : string :=
  ("data:image/" ++ extension img ++ ";base64," ++ b64encode (image_bytes img))%string.

(** Record [a], at position [k] of the list [extract_all] returns for
    document [d] of stem [stem], carries the largest retained image of
    its page, saved under the name numbered [k + 1]. *)
Definition carries_page_image
  (image_file : string -> nat -> nat -> string -> string)
  (b64encode : string -> string)
  (stem : string) (d : Document) (k : nat) (a : Artwork) : Prop :=
  exists page img,
    nth_error (pages d) (page_number a - 1) = Some page
    /\ hd_error (extract_images d page) = Some img
    /\ image_path a
       = Some (image_file stem (page_number a) (k + 1) (extension img))
    /\ image_data a = Some (data_url b64encode img).

(** What holds of the records of an extractor after the first [n] pages
    of its document. *)
Definition after_pages
  (image_file : string -> nat -> nat -> string -> string)
  (b64encode : string -> string)
  (stem : string) (d : Document) (n : nat) (R : list Artwork) : Prop :=
  List.length R <= n
  /\ Forall (fun a => 1 <= page_number a <= n) R
  /\ StronglySorted lt (map page_number R)
  /\ forall k a, nth_error R k = Some a ->
                 carries_page_image image_file b64encode stem d k a.

(** A record with a title has an artist. *)
Definition titled_has_artist (a : Artwork) : Prop :=
  is_set Title a = true -> is_set Artist a = true.

(** The medium is empty or differs from the artist and from the title. *)
Definition medium_apart (a : Artwork) : Prop :=
  medium a = "" \/ (medium a <> artist a /\ medium a <> title a).

(** A name of 250 characters. *)
Definition long_name : string := Str.of_chars (repeat "a"%char 250).

(** The record of scenario 1, without an image. *)
Definition scenario1_record : Artwork :=
  {| title := "Sunset Over the Bay"; artist := "Jane Doe"; year := "2019";
     dimensions := "24 x 36 in"; medium := "oil on canvas";
     price := Some "$4,500"%string; image_path := None; image_data := None;
     page_number := 1; confidence_score := 1%float |}.

(** ** First matches, stated field by field *)

(** The states after each attempt of the inline strategy, in the order of
    the separators, each attempt starting from the state the one before
    left; a separator that gives fewer than three parts makes no
    attempt. *)
Fixpoint separator_attempts (seps : list string) (text : string)
  (st : pstate) : list pstate :=
  match seps with
  | [] => []
  | sep :: rest =>
      let parts := Str.stripped_parts sep text in
      if 3 <=? List.length parts
      then inline_attempt parts st
           :: separator_attempts rest text (inline_attempt parts st)
      else separator_attempts rest text st
  end.

(** The score of the state's record exceeds 0.6. *)
Definition clearing (st : pstate) : bool := clears_threshold (art st).

(** [group(0)] of the first string of [ls], in order, in which [pattern]
    matches. *)
Fixpoint first_group (pattern : Re.regex) (ls : list string)
  : option string :=
  match ls with
  | [] => None
  | l :: rest =>
      match Re.search pattern l with
      | Some m => Some m
      | None => first_group pattern rest
      end
  end.

(** A field keeps a non-empty value; an empty one takes what was found. *)
Definition keep_or (cur : string) (found : option string) : string :=
  if Str.truthy cur then cur
  else match found with Some m => m | None => cur end.

Definition keep_or_opt (cur found : option string) : option string :=
  if Str.truthy_opt cur then cur
  else match found with Some m => Some m | None => cur end.

(** A line that can be the artist or the title: at least 3 characters,
    not all digits, not metadata-like. *)
Definition name_line (line : string) : bool :=
  negb ((String.length line <? 3) || Str.isdigit line)
  && negb (is_likely_metadata line).

(** A line that can be the medium of the line-break format. *)
Definition medium_line (artist title line : string) : bool :=
  negb (is_likely_metadata line) && (5 <? String.length line)
  && no_pattern_matches line
  && negb (String.eqb line artist) && negb (String.eqb line title).

(** A part that can be the medium of the inline format. *)
Definition medium_part (part : string) : bool :=
  negb (is_likely_metadata part) && (5 <? String.length part)
  && no_pattern_matches part.

(** Record [a] after a scan of [ls]: each of year, dimensions, price and
    medium that was empty holds the first match in [ls], in order. *)
Definition first_matches (medium_ok : string -> bool) (ls : list string)
  (a : Artwork) : Artwork :=
  mkArtwork (title a) (artist a)
    (keep_or (year a) (first_group year_pattern ls))
    (keep_or (dimensions a) (first_group dimensions_pattern ls))
    (keep_or (medium a) (find medium_ok ls))
    (keep_or_opt (price a) (first_group price_pattern ls))
    (image_path a) (image_data a) (page_number a) (confidence_score a).

(** The record with its score computed. *)
Definition with_score (a : Artwork) : Artwork :=
  set_confidence_score (score_of a) a.

(** The fresh record of page [n] with the first of [names] as artist and
    the second as title. *)
Definition named (names : list string) (n : nat) : Artwork :=
  mkArtwork (nth 1 names "") (nth 0 names "") "" "" "" None None None n
    0%float.

(** What the line-break strategy makes of the fresh record: artist and
    title are the first and the second name line among the first five
    lines; year, dimensions, price and medium are the first matches among
    all lines, in order. *)
Definition linebreak_first_matches (text : string) (n : nat) : Artwork :=
  let lines := Str.stripped_parts Str.newline text in
  let a := named (filter name_line (firstn 5 lines)) n in
  with_score (first_matches (medium_line (artist a) (title a)) lines a).

(** What one attempt of the inline strategy makes of record [a]: an
    empty artist and an empty title take the first and the second part;
    year, dimensions, price and medium that are empty take the first
    matches among the parts from the third on, in order. *)
Definition attempt_first_matches (parts : list string) (a : Artwork)
  : Artwork :=
  let a1 :=
    mkArtwork (keep_or (title a) (Some (nth 1 parts "")))
      (keep_or (artist a) (Some (nth 0 parts "")))
      (year a) (dimensions a) (medium a) (price a)
      (image_path a) (image_data a) (page_number a) (confidence_score a) in
  with_score (first_matches medium_part (skipn 2 parts) a1).

(** A field filled if it was empty. *)
Definition first_fill (f : field) (found : option string) (a : Artwork)
  : Artwork :=
  if is_set f a then a
  else match found with Some m => set_field f m a | None => a end.

(** The records after each attempt of the inline strategy on record [a],
    in the order of the separators, each attempt stated with
    [attempt_first_matches] and starting from the record the one before
    left. *)
Fixpoint attempts_first_matches (seps : list string) (text : string)
  (a : Artwork) : list Artwork :=
  match seps with
  | [] => []
  | sep :: rest =>
      let parts := Str.stripped_parts sep text in
      if 3 <=? List.length parts
      then attempt_first_matches parts a
           :: attempts_first_matches rest text (attempt_first_matches parts a)
      else attempts_first_matches rest text a
  end.

(** The first record of [l] whose score exceeds 0.6; the last of [l] when
    none does; [a] when [l] is empty. *)
Fixpoint settle (l : list Artwork) (a : Artwork) : Artwork :=
  match l with
  | [] => a
  | b :: rest => if clears_threshold b then b else settle rest b
  end.

(** The record the two strategies leave for [text] on page [n], stated
    with first matches only: the line-break record when its score exceeds
    0.6, and otherwise what the attempts of the inline strategy, made on
    that record, settle on. *)
Definition first_match_record (text : string) (n : nat) : Artwork :=
  let a := linebreak_first_matches text n in
  if clears_threshold a then a
  else settle (attempts_first_matches separators text a) a.

(** A text with a year on two lines, and two years on the first of
    them. *)
Definition two_years : string :=
  "Jane Doe" ++ Str.newline ++ "Sunset Over the Bay" ++ Str.newline
  ++ "oil on canvas" ++ Str.newline ++ "painted 1999, shown 2005"
  ++ Str.newline ++ "2010".

(** * Properties *)

(** ** The matcher passes at least one character on a consuming pattern *)

Module ReFacts.
Import Re.

Lemma star_loop_progress {A : Type} body (k : option ascii -> list ascii -> option A) :
  (forall p l k' x, body p l k' = Some x ->
     exists p' l', k' p' l' = Some x /\ List.length l' <= List.length l) ->
  forall fuel prev l x,
    star_loop body k fuel prev l = Some x ->
    exists p' l', k p' l' = Some x /\ List.length l' <= List.length l.
Proof.
  intros Hbody fuel.
  induction fuel as [|fuel IH]; intros prev l x H; simpl in H.
  - exists prev, l. split; [exact H | lia].
  - destruct (body prev l _) as [y|] eqn:E.
    + injection H as ->.
      apply Hbody in E. destruct E as (p1 & l1 & E & Hle).
      destruct (Nat.ltb_spec (List.length l1) (List.length l)) as [Hlt|]; [|discriminate].
      apply IH in E. destruct E as (p' & l' & E & Hle').
      exists p', l'. split; [exact E | lia].
    + exists prev, l. split; [exact H | lia].
Qed.

Lemma rmatch_progress (r : regex) :
  forall (A : Type) prev l (k : option ascii -> list ascii -> option A) x,
    rmatch r prev l k = Some x ->
    exists p' l', k p' l' = Some x
      /\ List.length l' <= List.length l
      /\ (consuming r = true -> List.length l' < List.length l).
Proof.
  induction r as [|p|r1 IH1 r2 IH2|r1 IH1 r2 IH2|r1 IH1|];
    intros A prev l k x H; simpl in H.
  - exists prev, l. repeat split; [exact H | lia | discriminate].
  - destruct l as [|c l']; [discriminate|].
    destruct (p c); [|discriminate].
    exists (Some c), l'. simpl. repeat split; [exact H | lia | lia].
  - apply IH1 in H. destruct H as (p1 & l1 & H & Hle1 & Hlt1).
    apply IH2 in H. destruct H as (p2 & l2 & H & Hle2 & Hlt2).
    exists p2, l2. repeat split; [exact H | lia |].
    simpl. intros Hc. apply orb_true_iff in Hc.
    destruct Hc as [Hc|Hc]; [apply Hlt1 in Hc | apply Hlt2 in Hc]; lia.
  - simpl. destruct (rmatch r1 prev l k) as [y|] eqn:E.
    + injection H as ->. apply IH1 in E.
      destruct E as (p' & l' & E & Hle & Hlt).
      exists p', l'. repeat split; [exact E | exact Hle |].
      intros Hc. apply andb_true_iff in Hc. apply Hlt, Hc.
    + apply IH2 in H. destruct H as (p' & l' & H & Hle & Hlt).
      exists p', l'. repeat split; [exact H | exact Hle |].
      intros Hc. apply andb_true_iff in Hc. apply Hlt, Hc.
  - apply star_loop_progress in H.
    + destruct H as (p' & l' & H & Hle).
      exists p', l'. repeat split; [exact H | exact Hle | discriminate].
    + intros p0 l0 k' x0 H0. apply IH1 in H0.
      destruct H0 as (p' & l' & H0 & Hle & _). exists p', l'. split; assumption.
  - destruct (xorb _ _); [|discriminate].
    exists prev, l. repeat split; [exact H | lia | discriminate].
Qed.

Lemma search_from_nonempty (r : regex) :
  consuming r = true ->
  forall l prev m, search_from r prev l = Some m -> m <> [].
Proof.
  intros Hc l.
  induction l as [|c l IH]; intros prev m H; simpl in H.
  - destruct (rmatch r prev [] _) as [rest|] eqn:E; [|discriminate].
    apply rmatch_progress in E. destruct E as (_ & l' & _ & _ & Hlt).
    apply Hlt in Hc. simpl in Hc. lia.
  - destruct (rmatch r prev (c :: l) _) as [rest|] eqn:E.
    + apply rmatch_progress in E. destruct E as (p' & l' & E & _ & Hlt).
      cbv beta in E. injection E as <-. apply Hlt in Hc.
      injection H as <-. intros Hnil.
      apply (f_equal (@List.length ascii)) in Hnil.
      simpl in Hc.
      destruct (List.length l') as [|n]; [discriminate Hnil|].
      rewrite firstn_length_le in Hnil by (simpl; lia).
      simpl in Hnil. lia.
    + eapply IH, H.
Qed.

Lemma search_truthy (r : regex) (s m : string) :
  consuming r = true -> search r s = Some m -> Str.truthy m = true.
Proof.
  unfold search. intros Hc H.
  destruct (search_from r None (Str.chars s)) as [l|] eqn:E; [|discriminate].
  injection H as <-.
  apply search_from_nonempty in E; [|exact Hc].
  destruct l; [contradiction|reflexivity].
Qed.

End ReFacts.

(** ** Fields and assignments *)

Lemma field_eqb_eq (f g : field) : field_eqb f g = true <-> f = g.
Proof. destruct f, g; simpl; split; intros H; congruence. Qed.

Lemma field_eqb_refl (f : field) : field_eqb f f = true.
Proof. destruct f; reflexivity. Qed.

Lemma get_set_same (f : field) v a : get_field f (set_field f v a) = Some v.
Proof. destruct f; reflexivity. Qed.

Lemma get_set_other (f g : field) v a :
  f <> g -> get_field g (set_field f v a) = get_field g a.
Proof. destruct f, g; intros H; try reflexivity; contradiction. Qed.

Lemma fields_found_score x a :
  fields_found (set_confidence_score x a) = fields_found a.
Proof. reflexivity. Qed.

Lemma length_truthy (s : string) n :
  (n <? String.length s) = true -> Str.truthy s = true.
Proof. destruct s; simpl; [intros H; destruct n; discriminate | reflexivity]. Qed.

Lemma stripped_parts_truthy sep s p :
  In p (Str.stripped_parts sep s) -> Str.truthy p = true.
Proof.
  unfold Str.stripped_parts. intros H.
  apply in_map_iff in H. destruct H as (q & <- & H).
  apply filter_In in H. apply H.
Qed.

Lemma patterns_consuming :
  Re.consuming year_pattern = true
  /\ Re.consuming dimensions_pattern = true
  /\ Re.consuming price_pattern = true.
Proof. repeat split; reflexivity. Qed.

Lemma inline_loop_cons sep rest text st :
  inline_loop (sep :: rest) text st =
  if 3 <=? List.length (Str.stripped_parts sep text)
  then
    if clears_threshold (art (inline_attempt (Str.stripped_parts sep text) st))
    then (inline_attempt (Str.stripped_parts sep text) st, true)
    else inline_loop rest text (inline_attempt (Str.stripped_parts sep text) st)
  else inline_loop rest text st.
Proof. reflexivity. Qed.

(** ** Every piece of the strategies only fills *)

Section Fills.

Variable st0 : pstate.

Lemma fills_trans st1 st2 : fills st0 st1 -> fills st1 st2 -> fills st0 st2.
Proof.
  intros H1 H2. induction H2 as [|st' f v _ IH He Hv|st' _ IH].
  - exact H1.
  - apply fills_assign; assumption.
  - apply fills_score; assumption.
Qed.

Lemma fills_fill_from_pattern f pattern s st :
  Re.consuming pattern = true ->
  fills st0 st -> fills st0 (fill_from_pattern f pattern s st).
Proof.
  intros Hc H. unfold fill_from_pattern.
  destruct (is_set f (art st)) eqn:E; simpl; [exact H|].
  destruct (Re.search pattern s) as [m|] eqn:Em; [|exact H].
  apply fills_assign; [exact H | exact E |].
  eapply ReFacts.search_truthy; eassumption.
Qed.

Lemma fills_fill_medium_line line st :
  fills st0 st -> fills st0 (fill_medium_line line st).
Proof.
  intros H. unfold fill_medium_line.
  destruct (is_set Medium (art st)) eqn:E; simpl; [exact H|].
  destruct (is_likely_metadata line); simpl; [exact H|].
  destruct (5 <? String.length line) eqn:El; [|exact H].
  destruct (no_pattern_matches line); [|exact H].
  destruct (negb _ && negb _); [|exact H].
  apply fills_assign; [exact H | exact E |].
  eapply length_truthy, El.
Qed.

Lemma fills_fill_medium_part part st :
  fills st0 st -> fills st0 (fill_medium_part part st).
Proof.
  intros H. unfold fill_medium_part.
  destruct (is_set Medium (art st)) eqn:E; simpl; [exact H|].
  destruct (is_likely_metadata part); simpl; [exact H|].
  destruct (5 <? String.length part) eqn:El; [|exact H].
  destruct (no_pattern_matches part); [|exact H].
  apply fills_assign; [exact H | exact E |].
  eapply length_truthy, El.
Qed.

Lemma fills_scan_line st line : fills st0 st -> fills st0 (scan_line st line).
Proof.
  intros H. unfold scan_line.
  destruct (negb (Str.truthy (Str.strip line))); [exact H|].
  apply fills_fill_medium_line.
  repeat apply fills_fill_from_pattern; try apply patterns_consuming.
  exact H.
Qed.

Lemma fills_scan_part st part : fills st0 st -> fills st0 (scan_part st part).
Proof.
  intros H. unfold scan_part.
  apply fills_fill_medium_part.
  repeat apply fills_fill_from_pattern; try apply patterns_consuming.
  exact H.
Qed.

Lemma fills_scan_lines lines :
  forall st, fills st0 st -> fills st0 (fold_left scan_line lines st).
Proof.
  induction lines as [|line lines IH]; intros st H; simpl; [exact H|].
  apply IH, fills_scan_line, H.
Qed.

Lemma fills_scan_parts parts :
  forall st, fills st0 st -> fills st0 (fold_left scan_part parts st).
Proof.
  induction parts as [|part parts IH]; intros st H; simpl; [exact H|].
  apply IH, fills_scan_part, H.
Qed.

Lemma fills_inline_attempt parts st :
  (forall p, In p parts -> Str.truthy p = true) ->
  (3 <=? List.length parts) = true ->
  fills st0 st -> fills st0 (inline_attempt parts st).
Proof.
  intros Hp Hlen H. unfold inline_attempt.
  destruct parts as [|p0 [|p1 rest]]; try discriminate.
  apply fills_score, fills_scan_parts.
  assert (H1 : fills st0
            (if negb (is_set Artist (art st))
             then assign Artist (nth 0 (p0 :: p1 :: rest) "") st else st)).
  { destruct (is_set Artist (art st)) eqn:E; simpl; [exact H|].
    apply fills_assign; [exact H | exact E | apply Hp; simpl; auto]. }
  revert H1. generalize (if negb (is_set Artist (art st))
             then assign Artist (nth 0 (p0 :: p1 :: rest) "") st else st).
  intros st1 H1.
  destruct (is_set Title (art st1)) eqn:E; simpl; [exact H1|].
  apply fills_assign; [exact H1 | exact E | apply Hp; simpl; auto].
Qed.

Lemma fills_inline_loop text seps :
  forall st, fills st0 st -> fills st0 (fst (inline_loop seps text st)).
Proof.
  induction seps as [|sep seps IH]; intros st H; [exact H|].
  rewrite inline_loop_cons.
  destruct (3 <=? List.length (Str.stripped_parts sep text)) eqn:El;
    [|apply IH, H].
  assert (Ha : fills st0 (inline_attempt (Str.stripped_parts sep text) st)).
  { apply fills_inline_attempt; [|exact El|exact H].
    intros p. apply stripped_parts_truthy. }
  destruct (clears_threshold _); [exact Ha | apply IH, Ha].
Qed.

Lemma fills_scan_artist_title lines :
  forall fa ft st,
    fa = is_set Artist (art st) -> ft = is_set Title (art st) ->
    fills st0 st -> fills st0 (scan_artist_title lines fa ft st).
Proof.
  induction lines as [|line lines IH]; intros fa ft st Ha Ht H; simpl;
    [exact H|].
  destruct (String.length line <? 3) eqn:El; simpl; [apply IH; assumption|].
  destruct (Str.isdigit line); [apply IH; assumption|].
  assert (Hline : Str.truthy line = true).
  { destruct line; [discriminate El|reflexivity]. }
  destruct (negb fa && negb (is_likely_metadata line)) eqn:E1.
  { apply andb_true_iff in E1. destruct E1 as [E1 _].
    apply negb_true_iff in E1. subst fa.
    apply IH.
    - simpl. unfold is_set. simpl. rewrite Hline. reflexivity.
    - exact Ht.
    - apply fills_assign; [exact H | exact E1 | exact Hline]. }
  destruct (fa && negb ft && negb (is_likely_metadata line)) eqn:E2.
  { apply andb_true_iff in E2. destruct E2 as [E2 _].
    apply andb_true_iff in E2. destruct E2 as [_ E2].
    apply negb_true_iff in E2. subst ft.
    apply IH.
    - exact Ha.
    - simpl. unfold is_set. simpl. rewrite Hline. reflexivity.
    - apply fills_assign; [exact H | exact E2 | exact Hline]. }
  destruct (fa && ft); [exact H | apply IH; assumption].
Qed.

End Fills.

Lemma fills_linebreak text st :
  is_set Artist (art st) = false -> is_set Title (art st) = false ->
  fills (emit (Invoke LineBreak) st)
        (fst (parse_artwork_linebreak_format text st)).
Proof.
  intros Ha Ht. unfold parse_artwork_linebreak_format. simpl.
  apply fills_score, fills_scan_lines, fills_scan_artist_title.
  - simpl. symmetry. exact Ha.
  - simpl. symmetry. exact Ht.
  - apply fills_refl.
Qed.

Lemma fills_inline text st :
  fills (emit (Invoke Inline) st) (fst (parse_artwork_inline_format text st)).
Proof. apply fills_inline_loop, fills_refl. Qed.

(** ** Traces of concatenations *)

Lemma assigned_app f tr1 tr2 :
  assigned f (tr1 ++ tr2) = assigned f tr1 ++ assigned f tr2.
Proof.
  induction tr1 as [|e tr1 IH]; [reflexivity|].
  destruct e; simpl; try exact IH.
  destruct (field_eqb f f0); simpl; congruence.
Qed.

Lemma invoked_app tr1 tr2 : invoked (tr1 ++ tr2) = invoked tr1 ++ invoked tr2.
Proof.
  induction tr1 as [|e tr1 IH]; [reflexivity|].
  destruct e; simpl; congruence.
Qed.

Lemma extractor_calls_app tr1 tr2 :
  extractor_calls (tr1 ++ tr2) = extractor_calls tr1 ++ extractor_calls tr2.
Proof.
  induction tr1 as [|e tr1 IH]; [reflexivity|].
  destruct e; simpl; congruence.
Qed.

Lemma skipped_app tr1 tr2 : skipped (tr1 ++ tr2) = skipped tr1 ++ skipped tr2.
Proof.
  induction tr1 as [|e tr1 IH]; [reflexivity|].
  destruct e; simpl; congruence.
Qed.

(** ** What filling preserves *)

Lemma fills_keeps st st' :
  fills st st' ->
  forall f, is_set f (art st) = true ->
            get_field f (art st') = get_field f (art st).
Proof.
  induction 1 as [|st' g v _ IH He _|st' _ IH]; intros f Hf.
  - reflexivity.
  - simpl. rewrite get_set_other; [apply IH, Hf|].
    intros ->. apply IH in Hf as Hg.
    unfold is_set in He, Hf. rewrite Hg, Hf in He. discriminate.
  - rewrite <- (IH f Hf). destruct f; reflexivity.
Qed.

Lemma fills_set st st' :
  fills st st' -> forall f, is_set f (art st) = true -> is_set f (art st') = true.
Proof.
  intros H f Hf. unfold is_set. rewrite (fills_keeps _ _ H f Hf). exact Hf.
Qed.

Lemma fills_page_number st st' :
  fills st st' -> page_number (art st') = page_number (art st).
Proof.
  induction 1 as [|st' g v _ IH _ _|st' _ IH]; [reflexivity| |exact IH].
  rewrite <- IH. destruct g; reflexivity.
Qed.

Lemma fills_invoked st st' :
  fills st st' -> invoked (trace st') = invoked (trace st).
Proof.
  induction 1 as [|st' g v _ IH _ _|st' _ IH]; [reflexivity| |exact IH].
  simpl. rewrite invoked_app, IH. apply app_nil_r.
Qed.

Lemma fills_extractor_calls st st' :
  fills st st' -> extractor_calls (trace st') = extractor_calls (trace st).
Proof.
  induction 1 as [|st' g v _ IH _ _|st' _ IH]; [reflexivity| |exact IH].
  simpl. rewrite extractor_calls_app, IH. apply app_nil_r.
Qed.

Lemma fills_skipped st st' :
  fills st st' -> skipped (trace st') = skipped (trace st).
Proof.
  induction 1 as [|st' g v _ IH _ _|st' _ IH]; [reflexivity| |exact IH].
  simpl. rewrite skipped_app, IH. apply app_nil_r.
Qed.

Lemma coherent_assign f v st :
  coherent st -> is_set f (art st) = false -> Str.truthy v = true ->
  coherent (assign f v st).
Proof.
  intros [Hno Hag] He Hv. split.
  - simpl. rewrite forallb_app, Hno. simpl.
    unfold is_set in He. rewrite He. reflexivity.
  - intros g. specialize (Hag g). unfold agrees in *. simpl.
    rewrite assigned_app. simpl.
    destruct (field_eqb g f) eqn:E.
    + apply field_eqb_eq in E. subst g.
      destruct (assigned f (trace st)) as [|v1 [|v2 l]]; simpl.
      * split; [apply get_set_same | exact Hv].
      * destruct Hag as [Hg Ht]. unfold is_set in He.
        rewrite Hg in He. simpl in He. congruence.
      * exact Hag.
    + assert (Hne : f <> g).
      { intros ->. rewrite field_eqb_refl in E. discriminate. }
      rewrite app_nil_r. unfold is_set.
      rewrite (get_set_other f g v (art st) Hne). exact Hag.
Qed.

Lemma coherent_score st : coherent st -> coherent (score_fields st).
Proof.
  intros [Hno Hag]. split; [exact Hno|].
  intros g. specialize (Hag g). unfold agrees, is_set in *. simpl.
  replace (get_field g (set_confidence_score _ (art st)))
    with (get_field g (art st)) by (destruct g; reflexivity).
  exact Hag.
Qed.

Lemma coherent_emit e st :
  match e with Assign _ _ _ => False | _ => True end ->
  coherent st -> coherent (emit e st).
Proof.
  intros He [Hno Hag]. split.
  - simpl. rewrite forallb_app, Hno. destruct e; try reflexivity; contradiction.
  - intros g. specialize (Hag g). unfold agrees in *. simpl.
    rewrite assigned_app.
    replace (assigned g [e]) with (@nil string)
      by (destruct e; try reflexivity; contradiction).
    rewrite app_nil_r. exact Hag.
Qed.

Lemma fills_coherent st st' : fills st st' -> coherent st -> coherent st'.
Proof.
  induction 1 as [|st' g v _ IH He Hv|st' _ IH]; intros Hc.
  - exact Hc.
  - apply coherent_assign; auto.
  - apply coherent_score; auto.
Qed.

Lemma coherent_start text page_num : coherent (start text page_num).
Proof. split; [reflexivity|]. intros f; destruct f; reflexivity. Qed.

(** ** The score after a strategy *)

Lemma scored_score_fields st : scored (art (score_fields st)).
Proof. reflexivity. Qed.

Lemma scored_linebreak text st :
  scored (art (fst (parse_artwork_linebreak_format text st))).
Proof. apply scored_score_fields. Qed.

Lemma inline_loop_true text seps :
  forall st, snd (inline_loop seps text st) = true ->
    scored (art (fst (inline_loop seps text st)))
    /\ clears_threshold (art (fst (inline_loop seps text st))) = true.
Proof.
  induction seps as [|sep seps IH]; intros st; [discriminate|].
  rewrite inline_loop_cons.
  destruct (3 <=? List.length (Str.stripped_parts sep text)); [|apply IH].
  destruct (clears_threshold _) eqn:E; [|apply IH].
  intros _. split; [apply scored_score_fields | exact E].
Qed.

Lemma try_strategies_true text st :
  snd (try_strategies text st) = true ->
  scored (art (fst (try_strategies text st)))
  /\ clears_threshold (art (fst (try_strategies text st))) = true.
Proof.
  unfold try_strategies.
  destruct (parse_artwork_linebreak_format text st) as [st1 ok] eqn:E.
  destruct ok.
  - intros _. simpl. split.
    + change st1 with (fst (st1, true)). rewrite <- E. apply scored_linebreak.
    + change st1 with (fst (st1, true)). rewrite <- E. rewrite E.
      unfold parse_artwork_linebreak_format in E.
      injection E as E1 E2. rewrite <- E1. exact E2.
  - apply inline_loop_true.
Qed.

Lemma fills_trace st st' :
  fills st st' ->
  exists evs,
    trace st' = trace st ++ evs
    /\ forallb no_overwrite evs = true
    /\ forall f before v, In (Assign f before v) evs ->
                          get_field f (art st') = Some v
                          /\ Str.truthy v = true.
Proof.
  induction 1 as [|st' g v _ IH He Hv|st' _ IH].
  - exists []. split; [symmetry; apply app_nil_r|].
    split; [reflexivity | intros f b v []].
  - destruct IH as (evs & Ht & Hno & Hin).
    exists (evs ++ [Assign g (get_field g (art st')) v]). split; [|split].
    + simpl. rewrite Ht. symmetry. apply app_assoc.
    + rewrite forallb_app, Hno. simpl. unfold is_set in He. rewrite He.
      reflexivity.
    + intros f b w H. apply in_app_or in H. destruct H as [H|[H|[]]].
      * apply Hin in H. destruct H as [Hg Hw]. split; [|exact Hw].
        simpl. rewrite get_set_other; [exact Hg|].
        intros <-. unfold is_set in He. rewrite Hg in He. simpl in He.
        congruence.
      * injection H as -> _ ->. split; [apply get_set_same | exact Hv].
  - destruct IH as (evs & Ht & Hno & Hin).
    exists evs. split; [exact Ht|]. split; [exact Hno|].
    intros f b w H. apply Hin in H. destruct H as [Hg Hw].
    split; [|exact Hw]. rewrite <- Hg. destruct f; reflexivity.
Qed.

(** ** The two strategies in sequence *)

Lemma linebreak_snd text st :
  snd (parse_artwork_linebreak_format text st)
  = clears_threshold (art (fst (parse_artwork_linebreak_format text st))).
Proof. reflexivity. Qed.

Lemma try_strategies_eq text st :
  try_strategies text st =
  if snd (parse_artwork_linebreak_format text st)
  then (fst (parse_artwork_linebreak_format text st), true)
  else parse_artwork_inline_format text
         (fst (parse_artwork_linebreak_format text st)).
Proof.
  unfold try_strategies.
  destruct (parse_artwork_linebreak_format text st) as [st1 ok].
  reflexivity.
Qed.

Lemma start_unset text page_num f : is_set f (art (start text page_num)) = false.
Proof. destruct f; reflexivity. Qed.

Lemma coherent_try_strategies text page_num :
  coherent (fst (try_strategies text (start text page_num))).
Proof.
  rewrite try_strategies_eq.
  assert (HA : coherent (fst (parse_artwork_linebreak_format text
                                (start text page_num)))).
  { eapply fills_coherent.
    - apply fills_linebreak; apply start_unset.
    - apply coherent_emit; [exact I | apply coherent_start]. }
  destruct (snd (parse_artwork_linebreak_format text (start text page_num))).
  - exact HA.
  - eapply fills_coherent; [apply fills_inline|].
    apply coherent_emit; [exact I | exact HA].
Qed.

Lemma invoked_linebreak text page_num :
  invoked (trace (fst (parse_artwork_linebreak_format text
                         (start text page_num)))) = [LineBreak].
Proof.
  rewrite (fills_invoked _ _ (fills_linebreak text (start text page_num)
             (start_unset _ _ Artist) (start_unset _ _ Title))).
  reflexivity.
Qed.

Lemma invoked_inline text st :
  invoked (trace (fst (parse_artwork_inline_format text st)))
  = invoked (trace st) ++ [Inline].
Proof.
  rewrite (fills_invoked _ _ (fills_inline text st)).
  simpl. apply invoked_app.
Qed.

Lemma calls_try_strategies text page_num :
  extractor_calls (trace (fst (try_strategies text (start text page_num))))
  = [text]
  /\ skipped (trace (fst (try_strategies text (start text page_num)))) = [].
Proof.
  rewrite try_strategies_eq.
  pose proof (fills_linebreak text (start text page_num)
                (start_unset _ _ Artist) (start_unset _ _ Title)) as HA.
  remember (parse_artwork_linebreak_format text (start text page_num)) as pr.
  clear Heqpr. destruct pr as [st1 ok]. simpl in HA.
  destruct ok; cbn [fst snd].
  - rewrite (fills_extractor_calls _ _ HA), (fills_skipped _ _ HA).
    split; reflexivity.
  - pose proof (fills_inline text st1) as HB.
    rewrite (fills_extractor_calls _ _ HB), (fills_skipped _ _ HB).
    simpl. rewrite extractor_calls_app, skipped_app.
    rewrite (fills_extractor_calls _ _ HA), (fills_skipped _ _ HA).
    split; reflexivity.
Qed.

(** ** The field extractor *)

Section FieldExtractorFacts.

Variable image_file : string -> nat -> nat -> string -> string.
Variable b64encode : string -> string.

(** What a call returns and adds to the trace, in terms of the run of the
    strategies from the fresh record. *)
Lemma extract_cases self text page_num image tr :
  let r := try_strategies text (start text page_num) in
  exists w,
    snd (extract_artwork_info_from_text image_file b64encode
           self text page_num image tr) = tr ++ trace (fst r) ++ w
    /\ (w = [] \/ exists p b, w = [WriteImage p b])
    /\ if snd r
       then exists a, fst (extract_artwork_info_from_text image_file b64encode
           self text page_num image tr) = Some a
                      /\ same_description a (art (fst r))
       else fst (extract_artwork_info_from_text image_file b64encode
           self text page_num image tr) = None.
Proof.
  intros r. unfold extract_artwork_info_from_text.
  fold (start text page_num). fold r.
  destruct r as [st ok]. simpl fst. simpl snd.
  destruct ok.
  - destruct image as [img|]; simpl.
    + eexists. split; [reflexivity|]. split; [right; eauto|].
      eexists. split; [reflexivity|].
      repeat split; intros f; destruct f; reflexivity.
    + exists []. rewrite app_nil_r. split; [reflexivity|]. split; [left; reflexivity|].
      eexists. split; [reflexivity|].
      repeat split.
  - exists []. rewrite app_nil_r. repeat split. left; reflexivity.
Qed.

Lemma same_description_fields_found a b :
  same_description a b -> fields_found a = fields_found b.
Proof.
  intros (Hf & _ & _). unfold fields_found.
  pose proof (Hf Title) as H1. pose proof (Hf Artist) as H2.
  pose proof (Hf Year) as H3. pose proof (Hf Dimensions) as H4.
  pose proof (Hf Medium) as H5. simpl in H1, H2, H3, H4, H5.
  injection H1 as H1. injection H2 as H2. injection H3 as H3.
  injection H4 as H4. injection H5 as H5.
  rewrite H1, H2, H3, H4, H5. reflexivity.
Qed.

Lemma same_description_scored a b :
  same_description a b -> scored b -> scored a.
Proof.
  intros H Hb. unfold scored, score_of in *.
  rewrite (same_description_fields_found a b H).
  destruct H as (_ & Hc & _). congruence.
Qed.

Lemma extract_accepted self text page_num image tr a :
  fst (extract_artwork_info_from_text image_file b64encode
           self text page_num image tr) = Some a ->
  scored a /\ clears_threshold a = true.
Proof.
  intros H.
  destruct (extract_cases self text page_num image tr) as (w & _ & _ & Hr).
  destruct (snd (try_strategies text (start text page_num))) eqn:E.
  - destruct Hr as (a' & Ha' & Hd). rewrite H in Ha'. injection Ha' as <-.
    apply try_strategies_true in E. destruct E as [Hs Hc]. split.
    + eapply same_description_scored; eassumption.
    + unfold clears_threshold in *. destruct Hd as (_ & -> & _). exact Hc.
  - congruence.
Qed.

End FieldExtractorFacts.

(** ** The score of an accepted record *)

Lemma fields_found_le a : fields_found a <= 5.
Proof. unfold fields_found. apply (filter_length_le Str.truthy [_; _; _; _; _]). Qed.

Lemma accepted_count a :
  scored a -> clears_threshold a = true ->
  (fields_found a = 4 /\ confidence_score a = 0.8%float)
  \/ (fields_found a = 5 /\ confidence_score a = 1%float).
Proof.
  unfold scored, score_of, clears_threshold. intros Hs Hc.
  rewrite Hs in *. pose proof (fields_found_le a) as Hle.
  destruct (fields_found a) as [|[|[|[|[|[|n]]]]]];
    try (vm_compute in Hc; discriminate Hc).
  - left. split; reflexivity.
  - right. split; reflexivity.
  - lia.
Qed.

(** * The claims about the field extractor *)

Section FieldExtractor.

Variable image_file : string -> nat -> nat -> string -> string.
Variable b64encode : string -> string.

(** C9.  A record returned by [extract_artwork_info_from_text] has at
    least four of title, artist, year, dimensions and medium non-empty,
    and its confidence score is the float 0.8 or the float 1.0. *)
Theorem returned_record_score :
  forall (self : PDFArtworkExtractor) (text : string) (page_num : nat)
         (image : option Image) (tr : list event) (a : Artwork),
    fst (extract_artwork_info_from_text image_file b64encode
           self text page_num image tr) = Some a ->
    4 <= fields_found a
    /\ (confidence_score a = 0.8%float \/ confidence_score a = 1%float).
Proof.
  intros self text page_num image tr a H.
  apply extract_accepted in H. destruct H as [Hs Hc].
  destruct (accepted_count a Hs Hc) as [[Hn Hv]|[Hn Hv]]; rewrite Hn;
    split; auto.
Qed.

End FieldExtractor.

(** * The claims about pages and documents *)

Lemma skip_condition_spec text (images : list Image) :
  is_empty images
  || ((2000 <? String.length text) && (List.length images <? 2)) = true
  <-> skip_condition text images.
Proof.
  unfold skip_condition.
  rewrite orb_true_iff, andb_true_iff, !Nat.ltb_lt.
  destruct images; simpl; intuition (try discriminate; try lia).
Qed.

Section Pages.

Variable image_file : string -> nat -> nat -> string -> string.
Variable b64encode : string -> string.

(** One call of the field extractor, as a page sees it. *)
Lemma extract_call self text page_num image tr :
  exists new,
    snd (extract_artwork_info_from_text image_file b64encode
           self text page_num image tr) = tr ++ new
    /\ extractor_calls new = [text] /\ skipped new = [].
Proof.
  destruct (extract_cases image_file b64encode self text page_num image tr)
    as (w & Htr & Hw & _).
  exists (trace (fst (try_strategies text (start text page_num))) ++ w).
  split; [exact Htr|].
  rewrite extractor_calls_app, skipped_app.
  destruct (calls_try_strategies text page_num) as [-> ->].
  destruct Hw as [->|(p & b & ->)]; split; reflexivity.
Qed.

Lemma process_sections_one self page_num text image tr :
  snd (process_sections image_file b64encode self page_num [(text, image)] [] tr)
  = snd (extract_artwork_info_from_text image_file b64encode
           self text page_num image tr)
  /\ Forall accepted
       (fst (process_sections image_file b64encode self page_num
               [(text, image)] [] tr)).
Proof.
  simpl.
  destruct (extract_artwork_info_from_text image_file b64encode
           self text page_num image tr) as [[a|] tr1] eqn:E; simpl.
  - split; [reflexivity|]. constructor; [|constructor].
    apply (extract_accepted image_file b64encode self text page_num image tr).
    rewrite E. reflexivity.
  - split; [reflexivity | constructor].
Qed.

(** What [process_page] does in each of its two cases. *)
Lemma process_page_cases self page page_num tr :
  let text := get_text page in
  let images := extract_images (doc self) page in
  let r := process_page image_file b64encode self page page_num tr in
  Forall accepted (fst r)
  /\ if is_empty images
        || ((2000 <? String.length text) && (List.length images <? 2))
     then r = ([], tr ++ [PrintSkip (page_num + 1)])
     else exists image, snd r = snd (extract_artwork_info_from_text image_file b64encode
           self text page_num image tr).
Proof.
  intros text images r. unfold r, process_page. fold text. fold images.
  destruct (is_empty images
            || ((2000 <? String.length text) && (List.length images <? 2)))
    eqn:Eskip.
  { split; [constructor | reflexivity]. }
  destruct ((List.length images =? 1)
            || ((0 <? List.length images) && is_main_artwork_page text))
    eqn:Esingle.
  { unfold extract_artwork_info. fold text.
    destruct (extract_artwork_info_from_text image_file b64encode
                self text page_num (hd_error images) tr)
      as [[a|] tr1] eqn:E; simpl.
    - split.
      + constructor; [|constructor].
        apply (extract_accepted image_file b64encode self text page_num
                 (hd_error images) tr).
        rewrite E. reflexivity.
      + exists (hd_error images). rewrite E. reflexivity.
    - split; [constructor|]. exists (hd_error images). rewrite E. reflexivity. }
  destruct images as [|i rest]; [discriminate Eskip|].
  destruct (1 <? List.length (i :: rest)) eqn:E1.
  - unfold split_page_into_sections. fold text.
    change (map (fun image => (text, Some image)) (firstn 1 (i :: rest)))
      with [(text, Some i)].
    destruct (process_sections_one self page_num text (Some i) tr) as [Hs Hf].
    split; [exact Hf|]. exists (Some i). exact Hs.
  - destruct rest; [discriminate Esingle | discriminate E1].
Qed.

(** C3.  [process_page] skips a page (it reports the page as skipped,
    returns no record and does not call the field extractor) exactly when
    the list of retained images is empty, or the text is longer than 2000
    characters and fewer than two images are retained; otherwise it calls
    the field extractor.  A page with no image at all is skipped. *)
Theorem page_skipped_iff :
  forall (self : PDFArtworkExtractor) (page : Page) (page_num : nat)
         (tr : list event),
    let text := get_text page in
    let images := extract_images (doc self) page in
    let r := process_page image_file b64encode self page page_num tr in
    exists new,
      snd r = tr ++ new
      /\ (skip_condition text images <-> skipped new = [page_num + 1])
      /\ (skip_condition text images <-> extractor_calls new = [])
      /\ (skip_condition text images -> fst r = [])
      /\ (get_images page = [] -> skip_condition text images).
Proof.
  intros self page page_num tr text images r.
  assert (Hnone : get_images page = [] -> skip_condition text images).
  { intros H. left. unfold images, extract_images. rewrite H. reflexivity. }
  destruct (process_page_cases self page page_num tr) as [_ Hc].
  fold text in Hc. fold images in Hc. fold r in Hc.
  pose proof (skip_condition_spec text images) as Hspec.
  destruct (is_empty images
            || ((2000 <? String.length text) && (List.length images <? 2))).
  - assert (Hs : skip_condition text images) by (apply Hspec; reflexivity).
    exists [PrintSkip (page_num + 1)]. rewrite Hc. simpl.
    repeat split; auto.
  - assert (Hs : ~ skip_condition text images).
    { intros H. apply Hspec in H. discriminate H. }
    destruct Hc as (image & Hc).
    destruct (extract_call self text page_num image tr) as (new & Hn & Hcalls & Hskip).
    exists new. rewrite Hc, Hcalls, Hskip.
    repeat split; try (intros H; contradiction || discriminate H); auto.
Qed.

Lemma extract_pages_accepted ps :
  forall page_num self tr,
    Forall accepted (artworks self) ->
    Forall accepted
      (artworks (fst (extract_pages image_file b64encode ps page_num self tr))).
Proof.
  induction ps as [|page ps IH]; intros page_num self tr H; simpl; [exact H|].
  destruct (process_page_cases self page page_num tr) as [Hf _].
  destruct (process_page image_file b64encode self page page_num tr)
    as [found tr1].
  apply IH. simpl. apply Forall_app. split; [exact H | exact Hf].
Qed.

(** C1.  Every record of the list [extract_all] returns, for an extractor
    newly made for a document, has as confidence score the number of
    non-empty fields among title, artist, year, dimensions and medium
    divided by 5 (the float division the source performs); so has the
    record either strategy leaves when it succeeds. *)
Theorem confidence_score_invariant :
  forall (path : string) (d : Document) (tr : list event),
    Forall (fun a => confidence_score a
                     = (float_of_nat (fields_found a) / 5)%float)
      (artworks (fst (extract_all image_file b64encode
                        (mkExtractor path d []) tr)))
    /\ (forall text st,
          snd (parse_artwork_linebreak_format text st) = true ->
          let a := art (fst (parse_artwork_linebreak_format text st)) in
          confidence_score a = (float_of_nat (fields_found a) / 5)%float)
    /\ (forall text st,
          snd (parse_artwork_inline_format text st) = true ->
          let a := art (fst (parse_artwork_inline_format text st)) in
          confidence_score a = (float_of_nat (fields_found a) / 5)%float).
Proof.
  intros path d tr. split; [|split].
  - eapply Forall_impl;
      [|apply extract_pages_accepted; constructor].
    intros a [Hs _]. exact Hs.
  - intros text st _. apply scored_linebreak.
  - intros text st H. apply inline_loop_true in H. apply H.
Qed.

(** ** The batch *)

Lemma process_files_raises good name rest :
  forall all tr,
    exists all' tr',
      process_files image_file b64encode (opened good) all tr
        = (Returned all', tr' ++ summary all')
      /\ process_files image_file b64encode
           (opened good ++ (name, None) :: rest) all tr
         = (Raised name, tr').
Proof.
  induction good as [|[file d] good IH]; intros all tr.
  - exists all, tr. split; [|reflexivity].
    simpl. unfold summary. destruct (is_empty all);
      [rewrite app_nil_r|]; reflexivity.
  - simpl.
    destruct (extract_all image_file b64encode
                {| pdf_path := file; doc := d; artworks := [] |} tr)
      as [extractor' tr1].
    apply IH.
Qed.

(** C8, as the code has it.  When opening a document raises, the error
    leaves [process_pdf_files]: the documents after it are not processed,
    no list of records is returned and no summary is written; what
    remains is what processing the documents before it wrote. *)
Theorem open_error_aborts_batch :
  forall (good : list (string * Document)) (name : string)
         (rest : list pdf_file),
    exists all tr,
      process_pdf_files image_file b64encode (opened good)
        = (Returned all, tr ++ summary all)
      /\ process_pdf_files image_file b64encode
           (opened good ++ (name, None) :: rest)
         = (Raised name, tr).
Proof.
  intros good name rest. apply process_files_raises.
Qed.

End Pages.

(** * The claim about the image selector *)

Lemma flat_map_image_of_xref d xs :
  flat_map (image_of_xref d) xs
  = filter large
      (flat_map
         (fun x => match extract_image d x with
                   | Some b => [mkImage x (base_width b) (base_height b)
                                  (base_image b) (base_ext b)]
                   | None => []
                   end) xs).
Proof.
  induction xs as [|x xs IH]; [reflexivity|].
  simpl. rewrite filter_app, <- IH. f_equal.
  unfold image_of_xref. destruct (extract_image d x) as [b|]; [|reflexivity].
  simpl. unfold large. simpl.
  destruct ((100 <? base_width b)%Z && (100 <? base_height b)%Z); reflexivity.
Qed.

Lemma insert_by_area_perm x l : Permutation (x :: l) (insert_by_area x l).
Proof.
  induction l as [|y l IH]; simpl; [apply Permutation_refl|].
  destruct (area y <=? area x)%Z; [apply Permutation_refl|].
  eapply perm_trans; [apply perm_swap|]. apply perm_skip, IH.
Qed.

Lemma sort_by_area_perm l : Permutation l (sort_by_area l).
Proof.
  induction l as [|x l IH]; simpl; [apply perm_nil|].
  eapply perm_trans; [apply perm_skip, IH | apply insert_by_area_perm].
Qed.

Lemma insert_by_area_sorted x l :
  StronglySorted larger_first l ->
  StronglySorted larger_first (insert_by_area x l).
Proof.
  induction 1 as [|y l Hs IH Hy]; simpl.
  - constructor; constructor.
  - destruct (Z.leb_spec (area y) (area x)) as [Hle|Hgt].
    + constructor; [constructor; assumption|].
      constructor; [exact Hle|].
      eapply Forall_impl; [|exact Hy].
      unfold larger_first. intros b Hb. lia.
    + constructor; [exact IH|].
      eapply Permutation_Forall; [apply insert_by_area_perm|].
      constructor; [unfold larger_first; lia | exact Hy].
Qed.

Lemma sort_by_area_sorted l : StronglySorted larger_first (sort_by_area l).
Proof.
  induction l as [|x l IH]; simpl; [constructor|].
  apply insert_by_area_sorted, IH.
Qed.

Lemma insert_by_area_stable k x l :
  filter (has_area k) (insert_by_area x l) = filter (has_area k) (x :: l).
Proof.
  induction l as [|y l IH]; [reflexivity|].
  simpl insert_by_area.
  destruct (Z.leb_spec (area y) (area x)) as [Hle|Hgt]; [reflexivity|].
  change (filter (has_area k) (y :: insert_by_area x l))
    with (if has_area k y then y :: filter (has_area k) (insert_by_area x l)
          else filter (has_area k) (insert_by_area x l)).
  rewrite IH. simpl. unfold has_area.
  destruct (Z.eqb_spec (area y) k), (Z.eqb_spec (area x) k);
    try reflexivity.
  lia.
Qed.

Lemma sort_by_area_stable k l :
  filter (has_area k) (sort_by_area l) = filter (has_area k) l.
Proof.
  induction l as [|x l IH]; [reflexivity|].
  simpl sort_by_area. rewrite insert_by_area_stable. simpl. rewrite IH.
  reflexivity.
Qed.

(** C4.  The list [extract_images] returns holds exactly the extracted
    images wider and higher than 100 pixels, each as often as the page
    lists it; it is in descending order of width times height; images of
    equal area keep the order of the page's list; and no image of width or
    height at most 100 is in it. *)
Theorem image_selector_order :
  forall (d : Document) (page : Page),
    let out := extract_images d page in
    let kept := filter large (raw_images d page) in
    Permutation kept out
    /\ StronglySorted larger_first out
    /\ (forall k, filter (has_area k) out = filter (has_area k) kept)
    /\ (forall i, In i out <->
                  In i (raw_images d page)
                  /\ (100 < width i)%Z /\ (100 < height i)%Z).
Proof.
  intros d page out kept.
  assert (Hout : out = sort_by_area kept).
  { unfold out, extract_images, kept, raw_images.
    rewrite flat_map_image_of_xref. reflexivity. }
  rewrite Hout.
  assert (Hiff : forall i, In i (sort_by_area kept) <-> In i kept).
  { intros i. split; apply Permutation_in;
      [apply Permutation_sym|]; apply sort_by_area_perm. }
  split; [apply sort_by_area_perm|].
  split; [apply sort_by_area_sorted|].
  split; [intros k; apply sort_by_area_stable|].
  intros i. rewrite Hiff. unfold kept. rewrite filter_In.
  unfold large. rewrite andb_true_iff, !Z.ltb_lt. reflexivity.
Qed.

(** * The claims about the inline strategy and the shared record *)

Lemma inline_loop_skip text pre :
  forall rest st,
    (forall s, In s pre -> List.length (Str.stripped_parts s text) < 3) ->
    inline_loop (pre ++ rest) text st = inline_loop rest text st.
Proof.
  induction pre as [|s pre IH]; intros rest st H; [reflexivity|].
  rewrite <- app_comm_cons, inline_loop_cons.
  destruct (Nat.leb_spec 3 (List.length (Str.stripped_parts s text))) as [Hle|_].
  - specialize (H s (or_introl eq_refl)). lia.
  - apply IH. intros s' Hs'. apply H. right. exact Hs'.
Qed.

Lemma inline_attempt_first_parts parts st :
  (forall p, In p parts -> Str.truthy p = true) ->
  (3 <=? List.length parts) = true ->
  (is_set Artist (art st) = false ->
   get_field Artist (art (inline_attempt parts st)) = Some (nth 0 parts ""))
  /\ (is_set Title (art st) = false ->
      get_field Title (art (inline_attempt parts st)) = Some (nth 1 parts "")).
Proof.
  intros Hp Hlen.
  destruct parts as [|p0 [|p1 rest]]; try discriminate.
  assert (H0 : Str.truthy p0 = true) by (apply Hp; simpl; auto).
  assert (H1 : Str.truthy p1 = true) by (apply Hp; simpl; auto).
  unfold inline_attempt. cbn [nth skipn].
  set (st1 := if negb (is_set Artist (art st))
              then assign Artist p0 st else st).
  set (st2 := if negb (is_set Title (art st1))
              then assign Title p1 st1 else st1).
  assert (F2 : fills st2 (score_fields (fold_left scan_part rest st2))).
  { apply fills_score, fills_scan_parts, fills_refl. }
  assert (F1 : fills st1 st2).
  { unfold st2. destruct (is_set Title (art st1)) eqn:E; simpl.
    - apply fills_refl.
    - apply fills_assign; [apply fills_refl | exact E | exact H1]. }
  split; intros He.
  - assert (Ha : get_field Artist (art st1) = Some p0).
    { unfold st1. rewrite He. reflexivity. }
    assert (Hs : is_set Artist (art st1) = true).
    { unfold is_set. rewrite Ha. exact H0. }
    rewrite (fills_keeps _ _ F2 Artist (fills_set _ _ F1 Artist Hs)).
    rewrite (fills_keeps _ _ F1 Artist Hs). exact Ha.
  - assert (Ht : is_set Title (art st1) = false).
    { unfold st1. destruct (is_set Artist (art st)); simpl; exact He. }
    assert (Ha : get_field Title (art st2) = Some p1).
    { unfold st2. rewrite Ht. reflexivity. }
    assert (Hs : is_set Title (art st2) = true).
    { unfold is_set. rewrite Ha. exact H1. }
    rewrite (fills_keeps _ _ F2 Title Hs). exact Ha.
Qed.

Lemma inline_loop_after_attempt sep rest text st :
  (3 <=? List.length (Str.stripped_parts sep text)) = true ->
  fills (inline_attempt (Str.stripped_parts sep text) st)
        (fst (inline_loop (sep :: rest) text st)).
Proof.
  intros Hlen. rewrite inline_loop_cons, Hlen.
  destruct (clears_threshold _); [apply fills_refl|].
  apply fills_inline_loop, fills_refl.
Qed.

(** C5, as the code has it.  On the text of scenario 3 the line-break
    strategy fails the threshold, having set the artist to the whole line;
    the inline strategy then succeeds on the comma, with title
    "Blue Horizon", medium "acrylic on canvas", year "2021" and dimensions
    "30x40 cm", and the artist stays the whole line. *)
Theorem scenario3_extraction :
  let A := parse_artwork_linebreak_format scenario3 (start scenario3 0) in
  let B := parse_artwork_inline_format scenario3 (fst A) in
  snd A = false
  /\ snd B = true
  /\ snd (inline_loop [","] scenario3 (emit (Invoke Inline) (fst A))) = true
  /\ artist (art (fst B)) = scenario3
  /\ title (art (fst B)) = "Blue Horizon"
  /\ medium (art (fst B)) = "acrylic on canvas"
  /\ year (art (fst B)) = "2021"
  /\ dimensions (art (fst B)) = "30x40 cm".
Proof. vm_compute. repeat split. Qed.

(** C5, as the claim has it, fails: the artist the inline strategy returns
    on scenario 3 is not "Mary Smith". *)
Lemma scenario3_artist_not_first_part :
  let A := parse_artwork_linebreak_format scenario3 (start scenario3 0) in
  let B := parse_artwork_inline_format scenario3 (fst A) in
  snd A = false
  /\ snd B = true
  /\ artist (art (fst B))
     = "Mary Smith, Blue Horizon, acrylic on canvas, 2021, 30x40 cm"
  /\ artist (art (fst B)) <> "Mary Smith".
Proof. vm_compute. repeat split. discriminate. Qed.

(** C6, as the claim has it, fails: on scenario 3 the line-break strategy
    fails and the artist is already set when the inline strategy starts. *)
Lemma scenario3_artist_set_before_inline :
  let A := parse_artwork_linebreak_format scenario3 (start scenario3 0) in
  snd A = false
  /\ is_set Artist (art (fst A)) = true
  /\ artist (art (fst A)) = scenario3
  /\ nth 0 (Str.stripped_parts "," scenario3) "" = "Mary Smith"
  /\ artist (art (fst (parse_artwork_inline_format scenario3 (fst A))))
     <> "Mary Smith".
Proof. vm_compute. repeat split. discriminate. Qed.

(** C6, as the code has it.  The inline strategy starts from the record
    as the line-break strategy left it: a field that strategy set is kept,
    and the first and second parts of the first separator that gives three
    parts become artist and title only where the line-break strategy left
    them empty. *)
Theorem inline_starts_from_linebreak_record :
  forall (text : string) (page_num : nat),
    let A := parse_artwork_linebreak_format text (start text page_num) in
    let B := parse_artwork_inline_format text (fst A) in
    (forall f, is_set f (art (fst A)) = true ->
               get_field f (art (fst B)) = get_field f (art (fst A)))
    /\ (forall pre sep post,
          separators = pre ++ sep :: post ->
          (forall s, In s pre -> List.length (Str.stripped_parts s text) < 3) ->
          3 <= List.length (Str.stripped_parts sep text) ->
          (is_set Artist (art (fst A)) = false ->
           artist (art (fst B)) = nth 0 (Str.stripped_parts sep text) "")
          /\ (is_set Title (art (fst A)) = false ->
              title (art (fst B)) = nth 1 (Str.stripped_parts sep text) "")).
Proof.
  intros text page_num A B. split.
  - intros f Hf. unfold B.
    apply (fills_keeps _ _ (fills_inline text (fst A))). exact Hf.
  - intros pre sep post Hseps Hpre Hlen.
    apply Nat.leb_le in Hlen.
    set (st := emit (Invoke Inline) (fst A)).
    assert (HB : fst B = fst (inline_loop (sep :: post) text st)).
    { unfold B, parse_artwork_inline_format. rewrite Hseps.
      rewrite inline_loop_skip by exact Hpre. reflexivity. }
    rewrite HB.
    pose proof (inline_loop_after_attempt sep post text st Hlen) as F.
    destruct (inline_attempt_first_parts (Str.stripped_parts sep text) st
                (stripped_parts_truthy sep text) Hlen) as [Ha Ht].
    split; intros He.
    + specialize (Ha He).
      assert (Hs : is_set Artist
                     (art (inline_attempt (Str.stripped_parts sep text) st))
                   = true).
      { unfold is_set. rewrite Ha. apply stripped_parts_truthy with sep text.
        apply nth_In. apply Nat.leb_le in Hlen. lia. }
      pose proof (fills_keeps _ _ F Artist Hs) as Hk. rewrite Ha in Hk.
      simpl in Hk. injection Hk as Hk. exact Hk.
    + specialize (Ht He).
      assert (Hs : is_set Title
                     (art (inline_attempt (Str.stripped_parts sep text) st))
                   = true).
      { unfold is_set. rewrite Ht. apply stripped_parts_truthy with sep text.
        apply nth_In. apply Nat.leb_le in Hlen. lia. }
      pose proof (fills_keeps _ _ F Title Hs) as Hk. rewrite Ht in Hk.
      simpl in Hk. injection Hk as Hk. exact Hk.
Qed.

(** C10.  In the inline strategy, an attempt on a separator that gives at
    least three parts and fails the threshold is not undone: every field
    the attempt assigned holds the assigned value in the record the
    strategy ends with, every field set after the attempt is kept, and the
    assignments of the later attempts are all to fields that were empty. *)
Theorem failed_attempt_not_rolled_back :
  forall (sep : string) (rest : list string) (text : string) (st : pstate),
    let parts := Str.stripped_parts sep text in
    let st' := inline_attempt parts st in
    let final := fst (inline_loop (sep :: rest) text st) in
    3 <= List.length parts ->
    clears_threshold (art st') = false ->
    final = fst (inline_loop rest text st')
    /\ exists evs0 evs1,
         trace st' = trace st ++ evs0
         /\ trace final = trace st' ++ evs1
         /\ (forall f before v, In (Assign f before v) evs0 ->
               get_field f (art final) = Some v)
         /\ (forall f before v, In (Assign f before v) evs1 ->
               Str.truthy_opt before = false)
         /\ (forall f, is_set f (art st') = true ->
               get_field f (art final) = get_field f (art st')).
Proof.
  intros sep rest text st parts st' final Hlen Hfail.
  apply Nat.leb_le in Hlen.
  assert (Hfinal : final = fst (inline_loop rest text st')).
  { unfold final. rewrite inline_loop_cons. fold parts. rewrite Hlen.
    fold st'. rewrite Hfail. reflexivity. }
  split; [exact Hfinal|].
  assert (F0 : fills st st').
  { apply fills_inline_attempt;
      [apply stripped_parts_truthy | exact Hlen | apply fills_refl]. }
  assert (F1 : fills st' final).
  { rewrite Hfinal. apply fills_inline_loop, fills_refl. }
  destruct (fills_trace _ _ F0) as (evs0 & Ht0 & _ & Hin0).
  destruct (fills_trace _ _ F1) as (evs1 & Ht1 & Hno1 & _).
  exists evs0, evs1. repeat split; try assumption.
  - intros f before v Hin. apply Hin0 in Hin. destruct Hin as [Hg Hv].
    rewrite (fills_keeps _ _ F1 f); [exact Hg|].
    unfold is_set. rewrite Hg. exact Hv.
  - intros f before v Hin. rewrite forallb_forall in Hno1.
    apply Hno1 in Hin. simpl in Hin. apply negb_true_iff in Hin. exact Hin.
  - apply (fills_keeps _ _ F1).
Qed.

(** ** The claims at concrete inputs *)

(** On [two_separators] the comma attempt fails after setting artist and
    title, and the bar attempt succeeds with them still in place. *)
Lemma failed_attempt_on_two_separators :
  let st := start two_separators 0 in
  let parts := Str.stripped_parts "," two_separators in
  let st' := inline_attempt parts st in
  let final := fst (inline_loop separators two_separators st) in
  (3 <= List.length parts
   /\ clears_threshold (art st') = false
   /\ snd (inline_loop separators two_separators st) = true
   /\ artist (art final) = "Ann" /\ title (art final) = "Bob"
   /\ medium (art final) = "oil on canvas")
  /\ final = fst (inline_loop ["|"; "  "; Str.newline] two_separators st')
  /\ exists evs0 evs1,
       trace st' = trace st ++ evs0
       /\ trace final = trace st' ++ evs1
       /\ (forall f before v, In (Assign f before v) evs0 ->
             get_field f (art final) = Some v)
       /\ (forall f before v, In (Assign f before v) evs1 ->
             Str.truthy_opt before = false)
       /\ (forall f, is_set f (art st') = true ->
             get_field f (art final) = get_field f (art st')).
Proof.
  split.
  - vm_compute. repeat split. repeat constructor.
  - apply (failed_attempt_not_rolled_back "," ["|"; "  "; Str.newline]
             two_separators (start two_separators 0)).
    + vm_compute. repeat constructor.
    + vm_compute. reflexivity.
Defined.

(** On scenario 3 the artist the line-break strategy set is the one the
    inline strategy returns. *)
Lemma inline_keeps_artist_on_scenario3 :
  let A := parse_artwork_linebreak_format scenario3 (start scenario3 0) in
  let B := parse_artwork_inline_format scenario3 (fst A) in
  is_set Artist (art (fst A)) = true
  /\ get_field Artist (art (fst B)) = get_field Artist (art (fst A)).
Proof.
  split.
  - vm_compute. reflexivity.
  - apply (proj1 (inline_starts_from_linebreak_record scenario3 0) Artist).
    vm_compute. reflexivity.
Defined.

Lemma returned_record_score_on_scenario1 :
  exists a,
    fst (extract_artwork_info_from_text sample_image_file sample_b64encode
           (mkExtractor "cat" catalog []) scenario1 0 None []) = Some a
    /\ 4 <= fields_found a
    /\ (confidence_score a = 0.8%float \/ confidence_score a = 1%float).
Proof.
  eexists. split.
  - vm_compute. reflexivity.
  - apply (returned_record_score sample_image_file sample_b64encode
             (mkExtractor "cat" catalog []) scenario1 0 None []).
    vm_compute. reflexivity.
Defined.

Lemma confidence_score_on_catalog :
  let found := artworks (fst (extract_all sample_image_file sample_b64encode
                                (mkExtractor "cat" catalog []) [])) in
  List.length found = 1
  /\ Forall (fun a => confidence_score a
                      = (float_of_nat (fields_found a) / 5)%float) found
  /\ snd (parse_artwork_inline_format scenario3 (start scenario3 0)) = true
  /\ confidence_score
       (art (fst (parse_artwork_inline_format scenario3 (start scenario3 0))))
     = (float_of_nat
          (fields_found
             (art (fst (parse_artwork_inline_format scenario3
                          (start scenario3 0))))) / 5)%float.
Proof.
  split; [vm_compute; reflexivity|].
  split; [apply (confidence_score_invariant sample_image_file sample_b64encode
                   "cat" catalog [])|].
  split; [vm_compute; reflexivity|].
  apply (proj2 (proj2 (confidence_score_invariant sample_image_file
                         sample_b64encode "cat" catalog []))
           scenario3 (start scenario3 0)).
  vm_compute. reflexivity.
Defined.

(** C8, as the claim has it, fails: with an unreadable second file the
    batch raises; the third file is never processed, no list of records is
    returned and no summary is written.  Without that file the batch
    returns the records of both catalogues. *)
Lemma open_error_stops_batch :
  let run := process_pdf_files sample_image_file sample_b64encode in
  let bad := run [("a", Some catalog); ("b", None); ("c", Some catalog)] in
  let good := run [("a", Some catalog); ("c", Some catalog)] in
  fst bad = Raised "b"
  /\ written (snd bad) = ["a_artworks.json"]
  /\ extractor_calls (snd bad) = [scenario1]
  /\ written (snd good)
     = ["a_artworks.json"; "c_artworks.json"; "all_artworks.json"]
  /\ exists a1 a2, fst good = Returned [a1; a2].
Proof. vm_compute. repeat split. eexists. eexists. reflexivity. Qed.

(** * Further properties of the code *)

(** ** Strings as lists of characters *)

Lemma chars_of_chars l : Str.chars (Str.of_chars l) = l.
Proof. apply list_ascii_of_string_of_list_ascii. Qed.

Lemma of_chars_chars s : Str.of_chars (Str.chars s) = s.
Proof. apply string_of_list_ascii_of_string. Qed.

Lemma chars_append s1 s2 :
  Str.chars (s1 ++ s2)%string = Str.chars s1 ++ Str.chars s2.
Proof.
  unfold Str.chars. induction s1 as [|c s1 IH]; [reflexivity|].
  simpl. rewrite IH. reflexivity.
Qed.

Lemma of_chars_app l1 l2 :
  Str.of_chars (l1 ++ l2) = (Str.of_chars l1 ++ Str.of_chars l2)%string.
Proof.
  unfold Str.of_chars. induction l1 as [|c l1 IH]; [reflexivity|].
  simpl. rewrite IH. reflexivity.
Qed.

Lemma append_empty s : (s ++ "")%string = s.
Proof. induction s as [|c s IH]; simpl; congruence. Qed.

Lemma length_chars s : List.length (Str.chars s) = String.length s.
Proof.
  unfold Str.chars. induction s as [|c s IH]; [reflexivity|].
  simpl. rewrite IH. reflexivity.
Qed.

Lemma length_of_chars l : String.length (Str.of_chars l) = List.length l.
Proof. rewrite <- length_chars, chars_of_chars. reflexivity. Qed.

Lemma forallb_firstn {A : Type} (p : A -> bool) n l :
  forallb p l = true -> forallb p (firstn n l) = true.
Proof.
  intros H. rewrite <- (firstn_skipn n l), forallb_app in H.
  apply andb_true_iff in H. apply H.
Qed.

Lemma forallb_skipn {A : Type} (p : A -> bool) n l :
  forallb p l = true -> forallb p (skipn n l) = true.
Proof.
  intros H. rewrite <- (firstn_skipn n l), forallb_app in H.
  apply andb_true_iff in H. apply H.
Qed.

(** ** [sanitize_filename] *)

Module PathFacts.
Import Path.

Lemma replace_all (L : list ascii) :
  existsb (Ascii.eqb "_"%char) L = false ->
  forall f,
    Str.chars (fold_left (fun f char => replace_char char f) L f)
    = map (fun c => if existsb (Ascii.eqb c) L then "_"%char else c)
        (Str.chars f).
Proof.
  induction L as [|old L IH]; intros HL f.
  - simpl. symmetry. apply map_id.
  - simpl in HL. apply orb_false_iff in HL. destruct HL as [Hold HL].
    simpl fold_left. rewrite (IH HL). unfold replace_char.
    rewrite chars_of_chars, map_map. apply map_ext. intros c. simpl.
    destruct (Ascii.eqb c old); [rewrite HL|]; reflexivity.
Qed.

Lemma chars_clean f : Str.chars (clean f) = map clean_char (Str.chars f).
Proof.
  unfold clean. rewrite chars_of_chars, replace_all by reflexivity.
  rewrite map_map. reflexivity.
Qed.

Lemma clean_char_safe c : safe (clean_char c) = true.
Proof. destruct c as [[] [] [] [] [] [] [] []]; reflexivity. Qed.

Lemma clean_char_fixed c : safe c = true -> clean_char c = c.
Proof.
  destruct c as [[] [] [] [] [] [] [] []]; intros H;
    first [reflexivity | discriminate H].
Qed.

Lemma clean_safe f : forallb safe (Str.chars (clean f)) = true.
Proof.
  rewrite chars_clean. apply forallb_forall. intros c Hc.
  apply in_map_iff in Hc. destruct Hc as (x & <- & _). apply clean_char_safe.
Qed.

Lemma clean_length f : String.length (clean f) = String.length f.
Proof. rewrite <- !length_chars, chars_clean. apply length_map. Qed.

Lemma clean_fixed f : forallb safe (Str.chars f) = true -> clean f = f.
Proof.
  intros H. rewrite <- (of_chars_chars (clean f)), chars_clean.
  rewrite <- (of_chars_chars f) at 2. f_equal.
  rewrite <- (map_id (Str.chars f)) at 2. apply map_ext_in.
  intros c Hc. apply clean_char_fixed.
  rewrite forallb_forall in H. apply H, Hc.
Qed.

(** The two parts [splitext] returns are, together, its argument. *)
Lemma splitext_parts p :
  (fst (splitext p) ++ snd (splitext p))%string = p.
Proof.
  unfold splitext.
  destruct (rfind "." p) as [d|]; [|apply append_empty].
  destruct (match rfind "/" p with Some s => s <? d | None => true end);
    [|apply append_empty].
  destruct (existsb _ _); [|apply append_empty].
  simpl. rewrite <- of_chars_app, firstn_skipn. apply of_chars_chars.
Qed.

Lemma sanitize_safe filename :
  forallb safe (Str.chars (sanitize_filename filename)) = true.
Proof.
  unfold sanitize_filename.
  pose proof (clean_safe filename) as Hs.
  destruct (200 <? String.length (clean filename)); [|exact Hs].
  pose proof (splitext_parts (clean filename)) as Hp.
  destruct (splitext (clean filename)) as [base ext].
  simpl in Hp. rewrite <- Hp, chars_append, forallb_app in Hs.
  apply andb_true_iff in Hs. destruct Hs as [Hb He].
  rewrite chars_append, chars_of_chars, forallb_app, He, andb_true_r.
  apply forallb_firstn, Hb.
Qed.

Lemma sanitize_fixed filename :
  forallb safe (Str.chars filename) = true ->
  String.length filename <= 200 ->
  sanitize_filename filename = filename.
Proof.
  intros Hs Hl. unfold sanitize_filename.
  rewrite (clean_fixed filename Hs).
  destruct (Nat.ltb_spec 200 (String.length filename)); [lia | reflexivity].
Qed.

End PathFacts.

Module SplitextFacts.
Import Path.

Lemma rfind_go_absent c l :
  existsb (fun x => Ascii.eqb x c) l = false ->
  forall i last, rfind_go c i last l = last.
Proof.
  induction l as [|x l IH]; intros H i last; [reflexivity|].
  simpl in H. apply orb_false_iff in H. destruct H as [Hx Hl].
  simpl. rewrite Hx. apply IH, Hl.
Qed.

Lemma rfind_go_app c l1 l2 :
  forall i last,
    rfind_go c i last (l1 ++ l2)
    = rfind_go c (i + List.length l1) (rfind_go c i last l1) l2.
Proof.
  induction l1 as [|x l1 IH]; intros i last; simpl.
  - rewrite Nat.add_0_r. reflexivity.
  - rewrite IH. f_equal. lia.
Qed.

Lemma clean_char_dot c :
  Ascii.eqb (clean_char c) "." = Ascii.eqb c ".".
Proof. destruct c as [[] [] [] [] [] [] [] []]; reflexivity. Qed.

Lemma clean_char_slash c : Ascii.eqb (clean_char c) "/" = false.
Proof. destruct c as [[] [] [] [] [] [] [] []]; reflexivity. Qed.

Lemma clean_append s1 s2 : clean (s1 ++ s2) = (clean s1 ++ clean s2)%string.
Proof.
  rewrite <- (of_chars_chars (clean (s1 ++ s2))).
  rewrite PathFacts.chars_clean, chars_append, map_app, of_chars_app.
  rewrite <- !PathFacts.chars_clean, !of_chars_chars. reflexivity.
Qed.

(** [splitext] on a name with no slash, whose last dot follows a
    character that is not a dot. *)
Lemma splitext_last_dot base ext :
  existsb (fun x => Ascii.eqb x "/") (Str.chars base ++ "."%char :: Str.chars ext)
  = false ->
  existsb (fun x => Ascii.eqb x ".") (Str.chars ext) = false ->
  existsb (fun x => negb (Ascii.eqb x ".")) (Str.chars base) = true ->
  splitext (base ++ String "." ext) = (base, String "." ext).
Proof.
  intros Hslash Hdot Hbase. unfold splitext, rfind.
  assert (Hc : Str.chars (base ++ String "." ext)%string
               = Str.chars base ++ "."%char :: Str.chars ext).
  { rewrite chars_append. reflexivity. }
  rewrite Hc.
  rewrite (rfind_go_absent "/" _ Hslash).
  rewrite rfind_go_app. simpl rfind_go.
  rewrite (rfind_go_absent "." _ Hdot). simpl.
  rewrite Nat.sub_0_r, firstn_app, Nat.sub_diag, firstn_all. simpl.
  rewrite app_nil_r, Hbase.
  rewrite skipn_app, Nat.sub_diag, skipn_all. simpl.
  rewrite of_chars_chars.
  change ("."%char :: Str.chars ext) with (Str.chars (String "." ext)).
  rewrite of_chars_chars. reflexivity.
Qed.

End SplitextFacts.

(** X1.  Every character of a name [sanitize_filename] returns is a
    printable ASCII character other than the nine invalid ones. *)
Theorem sanitize_filename_safe :
  forall filename : string,
    forallb Path.safe (Str.chars (Path.sanitize_filename filename)) = true.
Proof. intros filename. apply PathFacts.sanitize_safe. Qed.

(** X2.  [sanitize_filename] keeps the length of a name of at most 200
    characters; a longer name becomes the first 196 characters of its
    base and its whole extension, so the result has at most 200
    characters when the extension, dot included, has at most 4, and it can
    have more than 200 otherwise. *)
Theorem sanitize_filename_length :
  forall filename : string,
    let ext := snd (Path.splitext (Path.clean filename)) in
    let base := fst (Path.splitext (Path.clean filename)) in
    (String.length filename <= 200 ->
     String.length (Path.sanitize_filename filename) = String.length filename)
    /\ (200 < String.length filename ->
        String.length (Path.sanitize_filename filename)
        = Nat.min 196 (String.length base) + String.length ext)
    /\ (String.length ext <= 4 ->
        String.length (Path.sanitize_filename filename) <= 200)
    /\ exists long : string,
         200 < String.length (Path.sanitize_filename long).
Proof.
  intros filename ext base.
  assert (Hshort : String.length filename <= 200 ->
                   String.length (Path.sanitize_filename filename)
                   = String.length filename).
  { intros H. unfold Path.sanitize_filename.
    rewrite PathFacts.clean_length.
    destruct (Nat.ltb_spec 200 (String.length filename)); [lia|].
    apply PathFacts.clean_length. }
  assert (Hlong : 200 < String.length filename ->
                  String.length (Path.sanitize_filename filename)
                  = Nat.min 196 (String.length base) + String.length ext).
  { intros H. unfold Path.sanitize_filename, base, ext.
    rewrite PathFacts.clean_length.
    destruct (Nat.ltb_spec 200 (String.length filename)); [|lia].
    destruct (Path.splitext (Path.clean filename)) as [b e]. cbn [fst snd].
    rewrite <- !length_chars, chars_append, chars_of_chars, length_app.
    rewrite length_firstn. reflexivity. }
  split; [exact Hshort|]. split; [exact Hlong|]. split.
  - intros He.
    destruct (Nat.le_gt_cases (String.length filename) 200) as [H|H].
    + rewrite Hshort; assumption.
    + rewrite Hlong by exact H. lia.
  - exists (Str.of_chars (repeat "a"%char 250) ++ ".jpeg")%string.
    vm_compute. repeat constructor.
Qed.

(** X3.  A name of at most 200 characters, all of them safe, is returned
    unchanged. *)
Theorem sanitize_filename_fixed :
  forall filename : string,
    forallb Path.safe (Str.chars filename) = true ->
    String.length filename <= 200 ->
    Path.sanitize_filename filename = filename.
Proof. intros filename Hs Hl. apply PathFacts.sanitize_fixed; assumption. Qed.

(** X4.  A name with a dot after a character that is not a dot, and no
    dot after it, keeps its extension when it is cut:
    the result is the first 196 characters of the cleaned base, the dot
    and the cleaned extension. *)
Theorem sanitize_filename_keeps_extension :
  forall base ext : string,
    existsb (fun x => negb (Ascii.eqb x ".")) (Str.chars base) = true ->
    existsb (fun x => Ascii.eqb x ".") (Str.chars ext) = false ->
    200 < String.length (base ++ String "." ext) ->
    Path.sanitize_filename (base ++ String "." ext)
    = (Str.of_chars (firstn 196 (Str.chars (Path.clean base)))
       ++ String "." (Path.clean ext))%string.
Proof.
  intros base ext Hbase Hext Hlen. unfold Path.sanitize_filename.
  rewrite PathFacts.clean_length.
  destruct (Nat.ltb_spec 200 (String.length (base ++ String "." ext)));
    [|lia].
  rewrite SplitextFacts.clean_append.
  assert (Hd : Path.clean (String "." ext) = String "." (Path.clean ext)).
  { change (String "." ext) with ("." ++ ext)%string.
    rewrite SplitextFacts.clean_append. reflexivity. }
  rewrite Hd, SplitextFacts.splitext_last_dot; [reflexivity| | |].
  - change ("."%char :: Str.chars (Path.clean ext))
      with (Str.chars (String "." (Path.clean ext))).
    rewrite <- chars_append, <- Hd, <- SplitextFacts.clean_append.
    rewrite PathFacts.chars_clean.
    induction (Str.chars (base ++ String "." ext)) as [|c l IH];
      [reflexivity|].
    simpl. rewrite SplitextFacts.clean_char_slash. exact IH.
  - rewrite PathFacts.chars_clean. clear -Hext.
    induction (Str.chars ext) as [|c l IH]; [reflexivity|].
    simpl in *. rewrite SplitextFacts.clean_char_dot.
    apply orb_false_iff in Hext. destruct Hext as [-> Hl]. apply IH, Hl.
  - rewrite PathFacts.chars_clean. clear -Hbase.
    induction (Str.chars base) as [|c l IH]; [discriminate|].
    simpl in *. rewrite SplitextFacts.clean_char_dot.
    destruct (Ascii.eqb c "."); simpl in *; [apply IH, Hbase | reflexivity].
Qed.

(** X5.  Sanitizing again changes nothing, as long as the first result
    has at most 200 characters. *)
Theorem sanitize_filename_idempotent :
  forall filename : string,
    String.length (Path.sanitize_filename filename) <= 200 ->
    Path.sanitize_filename (Path.sanitize_filename filename)
    = Path.sanitize_filename filename.
Proof.
  intros filename H.
  apply PathFacts.sanitize_fixed; [apply PathFacts.sanitize_safe | exact H].
Qed.

(** ** A match is a string of the pattern and a piece of the input *)

Module ReSound.
Import Re.

Lemma star_loop_sound {A : Type} body
  (k : option ascii -> list ascii -> option A) (P : list ascii -> Prop) :
  (forall p l k' x, body p l k' = Some x ->
     exists m p' l', l = m ++ l' /\ P m /\ k' p' l' = Some x) ->
  forall fuel prev l x,
    star_loop body k fuel prev l = Some x ->
    exists m p' l', l = m ++ l' /\ star_of P m /\ k p' l' = Some x.
Proof.
  intros Hbody fuel.
  induction fuel as [|fuel IH]; intros prev l x H; simpl in H.
  - exists [], prev, l. repeat split; [constructor | exact H].
  - destruct (body prev l _) as [y|] eqn:E.
    + injection H as ->.
      apply Hbody in E. destruct E as (m1 & p1 & l1 & -> & Hm1 & E).
      destruct (List.length l1 <? List.length (m1 ++ l1)); [|discriminate].
      apply IH in E. destruct E as (m2 & p' & l' & -> & Hm2 & E).
      exists (m1 ++ m2), p', l'. rewrite app_assoc.
      repeat split; [constructor; assumption | exact E].
    + exists [], prev, l. repeat split; [constructor | exact H].
Qed.

Lemma rmatch_sound (r : regex) :
  forall (A : Type) prev l (k : option ascii -> list ascii -> option A) x,
    rmatch r prev l k = Some x ->
    exists m p' l', l = m ++ l' /\ lang r m /\ k p' l' = Some x.
Proof.
  induction r as [|p|r1 IH1 r2 IH2|r1 IH1 r2 IH2|r1 IH1|];
    intros A prev l k x H; simpl in H.
  - exists [], prev, l. repeat split. exact H.
  - destruct l as [|c l']; [discriminate|].
    destruct (p c) eqn:Ep; [|discriminate].
    exists [c], (Some c), l'. repeat split; [|exact H].
    exists c. split; [reflexivity | exact Ep].
  - apply IH1 in H. destruct H as (m1 & p1 & l1 & -> & Hm1 & H).
    apply IH2 in H. destruct H as (m2 & p2 & l2 & -> & Hm2 & H).
    exists (m1 ++ m2), p2, l2. rewrite app_assoc.
    repeat split; [|exact H]. exists m1, m2. repeat split; assumption.
  - destruct (rmatch r1 prev l k) as [y|] eqn:E.
    + injection H as ->. apply IH1 in E.
      destruct E as (m & p' & l' & -> & Hm & E).
      exists m, p', l'. repeat split; [left; exact Hm | exact E].
    + apply IH2 in H. destruct H as (m & p' & l' & -> & Hm & H).
      exists m, p', l'. repeat split; [right; exact Hm | exact H].
  - apply (star_loop_sound _ k (lang r1)) in H; [exact H|].
    intros p0 l0 k' x0 H0. apply IH1 in H0. exact H0.
  - destruct (xorb _ _); [|discriminate].
    exists [], prev, l. repeat split. exact H.
Qed.

Lemma search_from_eq (r : regex) prev l :
  search_from r prev l =
  match rmatch r prev l (fun _ rest => Some rest) with
  | Some rest => Some (firstn (List.length l - List.length rest) l)
  | None =>
      match l with
      | [] => None
      | c :: l' => search_from r (Some c) l'
      end
  end.
Proof. destruct l; reflexivity. Qed.

Lemma search_from_sound (r : regex) :
  forall l prev m,
    search_from r prev l = Some m ->
    lang r m /\ exists pre post, l = pre ++ m ++ post.
Proof.
  intros l. induction l as [|c l IH]; intros prev m H;
    rewrite search_from_eq in H;
    destruct (rmatch r prev _ (fun _ rest => Some rest)) as [rest|] eqn:E;
    try discriminate.
  - apply rmatch_sound in E. destruct E as (m' & p' & l' & Hl & Hm & E).
    cbv beta in E. injection E as <-.
    symmetry in Hl. apply app_eq_nil in Hl. destruct Hl as [-> ->].
    injection H as <-. split; [exact Hm|]. exists [], []. reflexivity.
  - apply rmatch_sound in E. destruct E as (m' & p' & l' & Hl & Hm & E).
    cbv beta in E. injection E as <-.
    rewrite Hl, length_app, Nat.add_sub, firstn_app, Nat.sub_diag in H.
    rewrite firstn_all in H. simpl in H. rewrite app_nil_r in H.
    injection H as <-.
    split; [exact Hm|]. exists [], l'. exact Hl.
  - apply IH in H. destruct H as (Hm & pre & post & ->).
    split; [exact Hm|]. exists (c :: pre), post. reflexivity.
Qed.

Lemma search_sound (r : regex) (s m : string) :
  search r s = Some m -> lang r (Str.chars m) /\ substring_of m s.
Proof.
  unfold search. intros H.
  destruct (search_from r None (Str.chars s)) as [l|] eqn:E; [|discriminate].
  injection H as <-. rewrite chars_of_chars.
  apply search_from_sound in E. destruct E as (Hm & pre & post & E).
  split; [exact Hm|]. exists pre, post. rewrite chars_of_chars. exact E.
Qed.

Lemma year_pattern_shape m :
  lang year_pattern (Str.chars m) -> year_shape m.
Proof.
  intros H. rewrite <- (of_chars_chars m). revert H.
  generalize (Str.chars m). intros l H.
  unfold year_pattern in H. cbn [lang word lit digit] in H.
  destruct H as (m0 & m1 & -> & -> & m2 & m3 & -> & H19 & m4 & m5 & ->
                 & (c & -> & Hc) & m6 & m7 & -> & (d & -> & Hd) & ->).
  exists c, d. split; [exact Hc|]. split; [exact Hd|].
  destruct H19 as [H|H];
    destruct H as (a & b & -> & (x & -> & Hx) & (y & -> & Hy));
    apply Ascii.eqb_eq in Hx, Hy; subst x y; [left | right]; reflexivity.
Qed.

End ReSound.

(** ** Lines and parts are pieces of the text *)

Lemma substring_of_refl s : substring_of s s.
Proof. exists [], []. rewrite app_nil_r. reflexivity. Qed.

Lemma substring_of_empty s : substring_of "" s.
Proof. exists [], (Str.chars s). reflexivity. Qed.

Lemma substring_of_trans a b c :
  substring_of a b -> substring_of b c -> substring_of a c.
Proof.
  intros (p1 & q1 & H1) (p2 & q2 & H2).
  exists (p2 ++ p1), (q1 ++ q2). rewrite H2, H1, !app_assoc. reflexivity.
Qed.

Lemma lstrip_suffix l : exists pre, l = pre ++ Str.lstrip l.
Proof.
  induction l as [|c l (pre & IH)]; [exists []; reflexivity|].
  simpl. destruct (Chars.isspace c).
  - exists (c :: pre). simpl. rewrite <- IH. reflexivity.
  - exists []. reflexivity.
Qed.

Lemma strip_substring s : substring_of (Str.strip s) s.
Proof.
  unfold substring_of, Str.strip. rewrite chars_of_chars.
  destruct (lstrip_suffix (Str.chars s)) as (pre & H1).
  destruct (lstrip_suffix (rev (Str.lstrip (Str.chars s)))) as (pre2 & H2).
  exists pre, (rev pre2).
  rewrite <- rev_app_distr, <- H2, rev_involutive. exact H1.
Qed.

Lemma split_go_pieces sep l :
  forall skip cur p,
    skip = 0 \/ cur = [] ->
    In p (Str.split_go sep skip cur l) ->
    exists pre post, rev cur ++ l = pre ++ Str.chars p ++ post.
Proof.
  induction l as [|c l IH]; intros skip cur p Hinv Hin.
  - simpl in Hin. destruct Hin as [<-|[]].
    exists [], []. rewrite chars_of_chars. reflexivity.
  - simpl in Hin. destruct skip as [|k].
    + destruct (Str.is_prefix sep (c :: l)).
      * destruct Hin as [<-|Hin].
        -- exists [], (c :: l). rewrite chars_of_chars. reflexivity.
        -- apply IH in Hin; [|right; reflexivity].
           destruct Hin as (pre & post & H). simpl in H.
           exists (rev cur ++ c :: pre), post. rewrite H, <- app_assoc.
           reflexivity.
      * apply IH in Hin; [|left; reflexivity].
        destruct Hin as (pre & post & H). simpl in H.
        rewrite <- app_assoc in H. exists pre, post. exact H.
    + destruct Hinv as [Hk | ->]; [discriminate|].
      apply IH in Hin; [|right; reflexivity].
      destruct Hin as (pre & post & H). simpl in H.
      exists (c :: pre), post. simpl. rewrite H. reflexivity.
Qed.

Lemma stripped_parts_substring sep s p :
  In p (Str.stripped_parts sep s) -> substring_of p s.
Proof.
  unfold Str.stripped_parts, Str.split. intros H.
  apply in_map_iff in H. destruct H as (q & <- & H).
  apply filter_In in H. destruct H as [H _].
  apply split_go_pieces in H; [|left; reflexivity].
  eapply substring_of_trans; [apply strip_substring|].
  destruct H as (pre & post & H). exists pre, post. exact H.
Qed.

(** ** What the fields of a record hold *)

Section WellFormed.

Variable text : string.

Lemma wf_assign f v st :
  well_formed text (art st) -> field_ok text f v ->
  well_formed text (art (assign f v st)).
Proof.
  intros Hw Hok g w Hg Ht. simpl in Hg.
  destruct (field_eqb f g) eqn:E.
  - apply field_eqb_eq in E. subst g. rewrite get_set_same in Hg.
    injection Hg as <-. exact Hok.
  - rewrite get_set_other in Hg; [apply Hw; assumption|].
    intros ->. rewrite field_eqb_refl in E. discriminate.
Qed.

Lemma wf_score st :
  well_formed text (art st) -> well_formed text (art (score_fields st)).
Proof.
  intros Hw g w Hg Ht. apply Hw; [|exact Ht].
  rewrite <- Hg. destruct g; reflexivity.
Qed.

Lemma wf_fill_from_pattern f pattern s st :
  (forall m, Re.search pattern s = Some m -> field_ok text f m) ->
  well_formed text (art st) ->
  well_formed text (art (fill_from_pattern f pattern s st)).
Proof.
  intros Hm Hw. unfold fill_from_pattern.
  destruct (negb (is_set f (art st))); [|exact Hw].
  destruct (Re.search pattern s) as [m|] eqn:E; [|exact Hw].
  apply wf_assign; [exact Hw | apply Hm; reflexivity].
Qed.

Lemma found_ok f pattern s m :
  substring_of s text ->
  (f = Year -> pattern = year_pattern) -> f <> Medium ->
  Re.search pattern s = Some m -> field_ok text f m.
Proof.
  intros Hs Hy Hm H. apply ReSound.search_sound in H. destruct H as [Hl Hsub].
  split; [eapply substring_of_trans; eassumption|].
  destruct f; try exact I.
  - apply ReSound.year_pattern_shape. rewrite <- (Hy eq_refl). exact Hl.
  - contradiction.
Qed.

Lemma wf_fill_medium_line line st :
  substring_of line text ->
  well_formed text (art st) ->
  well_formed text (art (fill_medium_line line st)).
Proof.
  intros Hs Hw. unfold fill_medium_line.
  destruct (is_set Medium (art st)); simpl; [exact Hw|].
  destruct (is_likely_metadata line) eqn:Em; simpl; [exact Hw|].
  destruct (5 <? String.length line) eqn:El; [|exact Hw].
  destruct (no_pattern_matches line) eqn:En; [|exact Hw].
  destruct (negb _ && negb _); [|exact Hw].
  apply wf_assign; [exact Hw|].
  split; [exact Hs|]. repeat split; try assumption.
  apply Nat.ltb_lt, El.
Qed.

Lemma wf_fill_medium_part part st :
  substring_of part text ->
  well_formed text (art st) ->
  well_formed text (art (fill_medium_part part st)).
Proof.
  intros Hs Hw. unfold fill_medium_part.
  destruct (is_set Medium (art st)); simpl; [exact Hw|].
  destruct (is_likely_metadata part) eqn:Em; simpl; [exact Hw|].
  destruct (5 <? String.length part) eqn:El; [|exact Hw].
  destruct (no_pattern_matches part) eqn:En; [|exact Hw].
  apply wf_assign; [exact Hw|].
  split; [exact Hs|]. repeat split; try assumption.
  apply Nat.ltb_lt, El.
Qed.

Lemma wf_fill_patterns s st :
  substring_of s text ->
  well_formed text (art st) ->
  well_formed text
    (art (fill_from_pattern Price price_pattern s
            (fill_from_pattern Dimensions dimensions_pattern s
               (fill_from_pattern Year year_pattern s st)))).
Proof.
  intros Hs Hw.
  repeat apply wf_fill_from_pattern; try exact Hw;
    intros m; apply found_ok; try exact Hs; congruence.
Qed.

Lemma wf_scan_line st line :
  substring_of line text ->
  well_formed text (art st) -> well_formed text (art (scan_line st line)).
Proof.
  intros Hs Hw. unfold scan_line.
  destruct (negb (Str.truthy (Str.strip line))); [exact Hw|].
  assert (Hl : substring_of (Str.strip line) text).
  { eapply substring_of_trans; [apply strip_substring | exact Hs]. }
  apply wf_fill_medium_line; [exact Hl|].
  apply wf_fill_patterns; assumption.
Qed.

Lemma wf_scan_part st part :
  substring_of part text ->
  well_formed text (art st) -> well_formed text (art (scan_part st part)).
Proof.
  intros Hs Hw. unfold scan_part.
  apply wf_fill_medium_part; [exact Hs|].
  apply wf_fill_patterns; assumption.
Qed.

Lemma wf_scan_lines lines :
  (forall l, In l lines -> substring_of l text) ->
  forall st, well_formed text (art st) ->
             well_formed text (art (fold_left scan_line lines st)).
Proof.
  induction lines as [|line lines IH]; intros Hl st Hw; [exact Hw|].
  simpl. apply IH; [intros l Hin; apply Hl; right; exact Hin|].
  apply wf_scan_line; [apply Hl; left; reflexivity | exact Hw].
Qed.

Lemma wf_scan_parts parts :
  (forall l, In l parts -> substring_of l text) ->
  forall st, well_formed text (art st) ->
             well_formed text (art (fold_left scan_part parts st)).
Proof.
  induction parts as [|part parts IH]; intros Hl st Hw; [exact Hw|].
  simpl. apply IH; [intros l Hin; apply Hl; right; exact Hin|].
  apply wf_scan_part; [apply Hl; left; reflexivity | exact Hw].
Qed.

Lemma wf_scan_artist_title lines :
  (forall l, In l lines -> substring_of l text) ->
  forall fa ft st,
    well_formed text (art st) ->
    well_formed text (art (scan_artist_title lines fa ft st)).
Proof.
  induction lines as [|line lines IH]; intros Hl fa ft st Hw; [exact Hw|].
  assert (Hline : substring_of line text) by (apply Hl; left; reflexivity).
  assert (Hrest : forall l, In l lines -> substring_of l text).
  { intros l Hin. apply Hl. right. exact Hin. }
  simpl.
  destruct ((String.length line <? 3) || Str.isdigit line);
    [apply IH; assumption|].
  destruct (negb fa && negb (is_likely_metadata line)).
  { apply IH; [exact Hrest|]. apply wf_assign; [exact Hw|].
    split; [exact Hline | exact I]. }
  destruct (fa && negb ft && negb (is_likely_metadata line)).
  { apply IH; [exact Hrest|]. apply wf_assign; [exact Hw|].
    split; [exact Hline | exact I]. }
  destruct (fa && ft); [exact Hw | apply IH; assumption].
Qed.

Lemma nth_substring parts n :
  (forall l, In l parts -> substring_of l text) ->
  substring_of (nth n parts "") text.
Proof.
  intros Hl. destruct (nth_in_or_default n parts ""%string) as [H| ->].
  - apply Hl, H.
  - apply substring_of_empty.
Qed.

Lemma wf_inline_attempt parts st :
  (forall l, In l parts -> substring_of l text) ->
  well_formed text (art st) ->
  well_formed text (art (inline_attempt parts st)).
Proof.
  intros Hl Hw. unfold inline_attempt.
  apply wf_score, wf_scan_parts.
  - intros l Hin. apply Hl.
    rewrite <- (firstn_skipn 2 parts). apply in_or_app. right. exact Hin.
  - assert (H1 : well_formed text
             (art (if negb (is_set Artist (art st))
                   then assign Artist (nth 0 parts "") st else st))).
    { destruct (negb (is_set Artist (art st))); [|exact Hw].
      apply wf_assign; [exact Hw|].
      split; [apply nth_substring, Hl | exact I]. }
    revert H1.
    generalize (if negb (is_set Artist (art st))
                then assign Artist (nth 0 parts "") st else st).
    intros st1 H1.
    destruct (negb (is_set Title (art st1))); [|exact H1].
    apply wf_assign; [exact H1|].
    split; [apply nth_substring, Hl | exact I].
Qed.

Lemma wf_inline_loop seps :
  forall st, well_formed text (art st) ->
             well_formed text (art (fst (inline_loop seps text st))).
Proof.
  induction seps as [|sep seps IH]; intros st Hw; [exact Hw|].
  rewrite inline_loop_cons.
  assert (Ha : well_formed text
                 (art (inline_attempt (Str.stripped_parts sep text) st))).
  { apply wf_inline_attempt; [|exact Hw].
    intros l. apply stripped_parts_substring. }
  destruct (3 <=? List.length (Str.stripped_parts sep text)); [|apply IH, Hw].
  destruct (clears_threshold _); [exact Ha | apply IH, Ha].
Qed.

Lemma wf_linebreak st :
  well_formed text (art st) ->
  well_formed text (art (fst (parse_artwork_linebreak_format text st))).
Proof.
  intros Hw. unfold parse_artwork_linebreak_format. cbn [fst].
  apply wf_score, wf_scan_lines;
    [intros l; apply stripped_parts_substring|].
  apply wf_scan_artist_title; [|exact Hw].
  intros l Hin. apply stripped_parts_substring with Str.newline.
  rewrite <- (firstn_skipn 5 (Str.stripped_parts Str.newline text)).
  apply in_or_app. left. exact Hin.
Qed.

Lemma wf_try_strategies page_num :
  well_formed text (art (fst (try_strategies text (start text page_num)))).
Proof.
  rewrite try_strategies_eq.
  assert (HA : well_formed text
                 (art (fst (parse_artwork_linebreak_format text
                              (start text page_num))))).
  { apply wf_linebreak. intros f v Hg Ht.
    destruct f; simpl in Hg; try discriminate; injection Hg as <-;
      discriminate Ht. }
  destruct (snd (parse_artwork_linebreak_format text (start text page_num)));
    [exact HA|].
  unfold parse_artwork_inline_format. apply wf_inline_loop. exact HA.
Qed.

End WellFormed.

Lemma extract_well_formed image_file b64encode self text page_num image tr a :
  fst (extract_artwork_info_from_text image_file b64encode
         self text page_num image tr) = Some a ->
  well_formed text a.
Proof.
  intros H.
  destruct (extract_cases image_file b64encode self text page_num image tr)
    as (w & _ & _ & Hr).
  destruct (snd (try_strategies text (start text page_num))); [|congruence].
  destruct Hr as (a' & Ha' & Hd & _). rewrite H in Ha'. injection Ha' as <-.
  intros f v Hg Ht. rewrite (Hd f) in Hg.
  exact (wf_try_strategies text page_num f v Hg Ht).
Qed.

Section RecordFields.

Variable image_file : string -> nat -> nat -> string -> string.
Variable b64encode : string -> string.

(** X6.  Every title, artist, year, dimensions, medium and price of a
    record the field extractor returns occurs in the text it was given, as
    one piece. *)
Theorem fields_occur_in_text :
  forall (self : PDFArtworkExtractor) (text : string) (page_num : nat)
         (image : option Image) (tr : list event) (a : Artwork),
    fst (extract_artwork_info_from_text image_file b64encode
           self text page_num image tr) = Some a ->
    forall f v, get_field f a = Some v -> substring_of v text.
Proof.
  intros self text page_num image tr a H f v Hg.
  destruct (Str.truthy v) eqn:Ht.
  - apply (extract_well_formed _ _ _ _ _ _ _ _ H f v Hg Ht).
  - destruct v; [apply substring_of_empty | discriminate Ht].
Qed.

(** X7.  The year of a returned record is empty or exactly four
    characters, of which the first two are 19 or 20.  Nothing is said of
    the two characters that follow, so that the statement does not depend
    on which characters the digit class of the pattern takes. *)
Theorem year_of_record :
  forall (self : PDFArtworkExtractor) (text : string) (page_num : nat)
         (image : option Image) (tr : list event) (a : Artwork),
    fst (extract_artwork_info_from_text image_file b64encode
           self text page_num image tr) = Some a ->
    year a = ""
    \/ exists c d,
         year a = String "1" (String "9" (String c (String d "")))
         \/ year a = String "2" (String "0" (String c (String d ""))).
Proof.
  intros self text page_num image tr a H.
  destruct (Str.truthy (year a)) eqn:Ht.
  - right.
    destruct (extract_well_formed _ _ _ _ _ _ _ _ H Year (year a) eq_refl Ht)
      as (_ & c & d & _ & _ & Hy).
    exists c, d. exact Hy.
  - left. destruct (year a); [reflexivity | discriminate Ht].
Qed.

(** X8.  The medium of a returned record is empty, or a piece of text of
    more than 5 characters that is not metadata-like and in which none of
    the year, dimensions and price patterns matches. *)
Theorem medium_of_record :
  forall (self : PDFArtworkExtractor) (text : string) (page_num : nat)
         (image : option Image) (tr : list event) (a : Artwork),
    fst (extract_artwork_info_from_text image_file b64encode
           self text page_num image tr) = Some a ->
    medium a = "" \/ medium_shape (medium a).
Proof.
  intros self text page_num image tr a H.
  destruct (Str.truthy (medium a)) eqn:Ht.
  - right.
    apply (extract_well_formed _ _ _ _ _ _ _ _ H Medium (medium a) eq_refl Ht).
  - left. destruct (medium a); [reflexivity | discriminate Ht].
Qed.

End RecordFields.

(** ** Pages and documents *)

Lemma written_app tr1 tr2 : written (tr1 ++ tr2) = written tr1 ++ written tr2.
Proof.
  induction tr1 as [|e tr1 IH]; [reflexivity|].
  destruct e; simpl; congruence.
Qed.

Lemma json_writes_app tr1 tr2 :
  json_writes (tr1 ++ tr2) = json_writes tr1 ++ json_writes tr2.
Proof.
  induction tr1 as [|e tr1 IH]; [reflexivity|].
  destruct e; simpl; congruence.
Qed.

Lemma image_writes_app tr1 tr2 :
  image_writes (tr1 ++ tr2) = image_writes tr1 ++ image_writes tr2.
Proof.
  induction tr1 as [|e tr1 IH]; [reflexivity|].
  destruct e; simpl; congruence.
Qed.

Lemma fills_json_writes st st' :
  fills st st' -> json_writes (trace st') = json_writes (trace st).
Proof.
  induction 1 as [|st' g v _ IH _ _|st' _ IH]; [reflexivity| |exact IH].
  simpl. rewrite json_writes_app, IH. apply app_nil_r.
Qed.

Lemma fills_image_writes st st' :
  fills st st' -> image_writes (trace st') = image_writes (trace st).
Proof.
  induction 1 as [|st' g v _ IH _ _|st' _ IH]; [reflexivity| |exact IH].
  simpl. rewrite image_writes_app, IH. apply app_nil_r.
Qed.

(** The strategies write no file and keep the page number. *)
Lemma try_strategies_quiet text page_num :
  let st := fst (try_strategies text (start text page_num)) in
  json_writes (trace st) = [] /\ image_writes (trace st) = []
  /\ page_number (art st) = page_num + 1.
Proof.
  cbv zeta. rewrite try_strategies_eq.
  pose proof (fills_linebreak text (start text page_num)
                (start_unset _ _ Artist) (start_unset _ _ Title)) as HA.
  remember (parse_artwork_linebreak_format text (start text page_num)) as pr.
  clear Heqpr. destruct pr as [st1 ok]. simpl in HA.
  assert (H1 : json_writes (trace st1) = [] /\ image_writes (trace st1) = []
               /\ page_number (art st1) = page_num + 1).
  { rewrite (fills_json_writes _ _ HA), (fills_image_writes _ _ HA),
      (fills_page_number _ _ HA). repeat split. }
  destruct ok; cbn [fst snd]; [exact H1|].
  pose proof (fills_inline text st1) as HB.
  rewrite (fills_json_writes _ _ HB), (fills_image_writes _ _ HB),
    (fills_page_number _ _ HB).
  simpl. rewrite json_writes_app, image_writes_app.
  destruct H1 as (-> & -> & ->). repeat split.
Qed.

Section PageFacts.

Variable image_file : string -> nat -> nat -> string -> string.
Variable b64encode : string -> string.

(** A record leaves with the page number of the call, and, when an
    image was passed, with that image saved under the number after those
    of the records the extractor already holds. *)
Lemma extract_record self text page_num image tr a :
  fst (extract_artwork_info_from_text image_file b64encode
         self text page_num image tr) = Some a ->
  page_number a = page_num + 1
  /\ forall img, image = Some img ->
       image_path a
       = Some (image_file (pdf_path self) (page_num + 1)
                 (List.length (artworks self) + 1) (extension img))
       /\ image_data a = Some (data_url b64encode img).
Proof.
  unfold extract_artwork_info_from_text. fold (start text page_num).
  destruct (try_strategies_quiet text page_num) as (_ & _ & Hp).
  destruct (try_strategies text (start text page_num)) as [st ok].
  cbn [fst] in Hp.
  destruct ok; [|discriminate].
  destruct image as [img|]; simpl; intros H; injection H as <-.
  - split; [exact Hp|]. intros img' Hi. injection Hi as <-.
    split; reflexivity.
  - split; [exact Hp|]. intros img' Hi. discriminate Hi.
Qed.

(** The records do not depend on the trace so far; the trace is
    continued, with no JSON file written. *)
Lemma extract_appends self text page_num image tr :
  fst (extract_artwork_info_from_text image_file b64encode
         self text page_num image tr)
  = fst (extract_artwork_info_from_text image_file b64encode
           self text page_num image [])
  /\ exists new,
       snd (extract_artwork_info_from_text image_file b64encode
              self text page_num image tr) = tr ++ new
       /\ json_writes new = [].
Proof.
  split.
  - unfold extract_artwork_info_from_text.
    destruct (try_strategies text _) as [st ok].
    destruct ok; [destruct image|]; reflexivity.
  - destruct (extract_cases image_file b64encode self text page_num image tr)
      as (w & Htr & Hw & _).
    exists (trace (fst (try_strategies text (start text page_num))) ++ w).
    split; [exact Htr|].
    rewrite json_writes_app.
    destruct (try_strategies_quiet text page_num) as (-> & _ & _).
    destruct Hw as [->|(p & b & ->)]; reflexivity.
Qed.

(** [process_page], branch by branch: a skip, or one call of the field
    extractor on the whole text with the first of the sorted images. *)
Lemma process_page_eq self page page_num tr :
  let text := get_text page in
  let images := extract_images (doc self) page in
  process_page image_file b64encode self page page_num tr =
  if is_empty images
     || ((2000 <? String.length text) && (List.length images <? 2))
  then ([], tr ++ [PrintSkip (page_num + 1)])
  else
    let e := extract_artwork_info_from_text image_file b64encode
               self text page_num (hd_error images) tr in
    (record_list (fst e), snd e).
Proof.
  intros text images. unfold process_page. fold text. fold images.
  destruct (is_empty images
            || ((2000 <? String.length text) && (List.length images <? 2)))
    eqn:Eskip; [reflexivity|].
  destruct ((List.length images =? 1)
            || ((0 <? List.length images) && is_main_artwork_page text))
    eqn:Esingle.
  { unfold extract_artwork_info. fold text.
    destruct (extract_artwork_info_from_text image_file b64encode
                self text page_num (hd_error images) tr) as [[a|] tr1];
      reflexivity. }
  destruct images as [|i rest]; [discriminate Eskip|].
  destruct (1 <? List.length (i :: rest)) eqn:E1.
  - unfold split_page_into_sections. fold text.
    change (map (fun image => (text, Some image)) (firstn 1 (i :: rest)))
      with [(text, Some i)].
    simpl process_sections. simpl hd_error.
    destruct (extract_artwork_info_from_text image_file b64encode
                self text page_num (Some i) tr) as [[a|] tr1];
      reflexivity.
  - destruct rest; [discriminate Esingle | discriminate E1].
Qed.

End PageFacts.

Lemma sorted_snoc (l : list nat) n :
  StronglySorted lt l -> Forall (fun x => x < n) l ->
  StronglySorted lt (l ++ [n]).
Proof.
  induction 1 as [|x l Hs IH Hx]; intros Hn; simpl.
  - constructor; constructor.
  - inversion Hn as [|? ? Hxn Hln]; subst.
    constructor; [apply IH, Hln|].
    apply Forall_app. split; [exact Hx | constructor; [exact Hxn | constructor]].
Qed.

Section DocumentFacts.

Variable image_file : string -> nat -> nat -> string -> string.
Variable b64encode : string -> string.

Lemma after_pages_skip stem d n R :
  after_pages image_file b64encode stem d n R -> after_pages image_file b64encode stem d (n + 1) R.
Proof.
  intros (Hl & Hf & Hs & Hc). repeat split; try assumption; [lia|].
  eapply Forall_impl; [|exact Hf]. simpl. intros a Ha. lia.
Qed.

Lemma after_pages_record stem d n R a page img :
  after_pages image_file b64encode stem d n R ->
  nth_error (pages d) n = Some page ->
  hd_error (extract_images d page) = Some img ->
  page_number a = n + 1 ->
  image_path a
  = Some (image_file stem (n + 1) (List.length R + 1) (extension img)) ->
  image_data a = Some (data_url b64encode img) ->
  after_pages image_file b64encode stem d (n + 1) (R ++ [a]).
Proof.
  intros (Hl & Hf & Hs & Hc) Hpage Himg Hn Hpath Hdata.
  split; [rewrite length_app; simpl; lia|].
  split; [|split].
  - apply Forall_app. split.
    + eapply Forall_impl; [|exact Hf]. simpl. intros b Hb. lia.
    + constructor; [lia | constructor].
  - rewrite map_app. simpl. apply sorted_snoc; [exact Hs|].
    apply Forall_map. eapply Forall_impl; [|exact Hf].
    simpl. intros b Hb. lia.
  - intros k b Hk.
    destruct (Nat.lt_ge_cases k (List.length R)) as [Hlt|Hge].
    + rewrite nth_error_app1 in Hk by exact Hlt. apply Hc, Hk.
    + rewrite nth_error_app2 in Hk by exact Hge.
      destruct (k - List.length R) as [|j] eqn:Ej.
      * simpl in Hk. injection Hk as <-.
        assert (k = List.length R) by lia. subst k.
        exists page, img. rewrite Hn, Nat.add_sub.
        repeat split; assumption.
      * simpl in Hk. destruct j; discriminate Hk.
Qed.

Lemma extract_pages_after ps :
  forall done self tr,
    pages (doc self) = done ++ ps ->
    after_pages image_file b64encode (pdf_path self) (doc self) (List.length done)
      (artworks self) ->
    after_pages image_file b64encode (pdf_path self) (doc self) (List.length (done ++ ps))
      (artworks (fst (extract_pages image_file b64encode ps
                        (List.length done) self tr))).
Proof.
  induction ps as [|page ps IH]; intros done self tr Hpages Hinv.
  - rewrite app_nil_r. exact Hinv.
  - simpl extract_pages.
    rewrite (process_page_eq image_file b64encode self page
               (List.length done) tr).
    cbv zeta.
    assert (Hnth : nth_error (pages (doc self)) (List.length done)
                   = Some page).
    { rewrite Hpages, nth_error_app2, Nat.sub_diag by lia. reflexivity. }
    assert (Hstep : forall found tr1,
              after_pages image_file b64encode (pdf_path self) (doc self) (List.length done + 1)
                (artworks self ++ found) ->
              after_pages image_file b64encode (pdf_path self) (doc self)
                (List.length (done ++ page :: ps))
                (artworks (fst (extract_pages image_file b64encode ps
                                  (List.length done + 1)
                                  (extend_artworks self found) tr1)))).
    { intros found tr1 H.
      replace (List.length done + 1) with (List.length (done ++ [page]))
        in * by (rewrite length_app; reflexivity).
      replace (done ++ page :: ps) with ((done ++ [page]) ++ ps)
        by (rewrite <- app_assoc; reflexivity).
      apply (IH (done ++ [page]) (extend_artworks self found) tr1).
      - simpl. rewrite Hpages, <- app_assoc. reflexivity.
      - exact H. }
    destruct (is_empty (extract_images (doc self) page)
              || ((2000 <? String.length (get_text page))
                  && (List.length (extract_images (doc self) page) <? 2)))
      eqn:Eskip.
    + apply Hstep. rewrite app_nil_r. apply after_pages_skip, Hinv.
    + destruct (extract_images (doc self) page) as [|img rest] eqn:Eimg;
        [discriminate Eskip|].
      simpl hd_error.
      destruct (extract_artwork_info_from_text image_file b64encode self
                  (get_text page) (List.length done) (Some img) tr)
        as [[a|] tr1] eqn:E; simpl; apply Hstep.
      * pose proof (extract_record image_file b64encode self (get_text page)
                      (List.length done) (Some img) tr a) as Hr.
        rewrite E in Hr. destruct (Hr eq_refl) as [Hn Hi].
        destruct (Hi img eq_refl) as [Hpath Hdata].
        eapply after_pages_record; try eassumption.
        rewrite Eimg. reflexivity.
      * rewrite app_nil_r. apply after_pages_skip, Hinv.
Qed.

Lemma extract_all_after stem d tr :
  after_pages image_file b64encode stem d (List.length (pages d))
    (artworks (fst (extract_all image_file b64encode
                      (mkExtractor stem d []) tr))).
Proof.
  unfold extract_all.
  apply (extract_pages_after (pages d) [] (mkExtractor stem d []) tr).
  - reflexivity.
  - repeat split; simpl; try constructor. intros [|k] a H; discriminate H.
Qed.

(** X9.  A page that is not skipped gives what one call of the field
    extractor gives on the whole page text with the largest retained
    image, whether the page was taken as a single artwork or as several:
    at most one record, and the other images are not used. *)
Theorem page_uses_largest_image :
  forall (self : PDFArtworkExtractor) (page : Page) (page_num : nat)
         (tr : list event),
    let text := get_text page in
    let images := extract_images (doc self) page in
    ~ skip_condition text images ->
    exists largest,
      hd_error images = Some largest
      /\ (forall i, In i images -> (area i <= area largest)%Z)
      /\ process_page image_file b64encode self page page_num tr
         = (record_list
              (fst (extract_artwork_info_from_text image_file b64encode
                      self text page_num (Some largest) tr)),
            snd (extract_artwork_info_from_text image_file b64encode
                   self text page_num (Some largest) tr)).
Proof.
  intros self page page_num tr text images Hskip.
  pose proof (process_page_eq image_file b64encode self page page_num tr)
    as Heq.
  cbv zeta in Heq. fold text in Heq. fold images in Heq.
  pose proof (skip_condition_spec text images) as Hspec.
  destruct (is_empty images
            || ((2000 <? String.length text) && (List.length images <? 2))).
  - exfalso. apply Hskip, Hspec. reflexivity.
  - pose proof (sort_by_area_sorted
                  (flat_map (image_of_xref (doc self)) (get_images page)))
      as Hsorted.
    change (sort_by_area _) with images in Hsorted.
    destruct images as [|largest rest] eqn:Eimg.
    + exfalso. apply Hskip. left. reflexivity.
    + exists largest. split; [reflexivity|]. split; [|exact Heq].
      inversion Hsorted as [|? ? _ Hall]; subst.
      intros i [<-|Hin]; [lia|].
      rewrite Forall_forall in Hall. apply Hall, Hin.
Qed.

(** X10.  The list [extract_all] returns for a document has at most one
    record per page, in the order of the pages: the page numbers are
    strictly increasing and lie between 1 and the number of pages. *)
Theorem records_follow_pages :
  forall (stem : string) (d : Document) (tr : list event),
    let R := artworks (fst (extract_all image_file b64encode
                              (mkExtractor stem d []) tr)) in
    List.length R <= List.length (pages d)
    /\ StronglySorted lt (map page_number R)
    /\ Forall (fun a => 1 <= page_number a <= List.length (pages d)) R.
Proof.
  intros stem d tr R.
  destruct (extract_all_after stem d tr) as (Hl & Hf & Hs & _).
  repeat split; assumption.
Qed.

(** X11.  Every record of the list [extract_all] returns has an image:
    the largest retained image of its page, saved under the file name
    built from the document's stem, the page number and the record's
    1-based position in the list, and held as a data URL. *)
Theorem records_carry_images :
  forall (stem : string) (d : Document) (tr : list event) (k : nat)
         (a : Artwork),
    nth_error (artworks (fst (extract_all image_file b64encode
                                (mkExtractor stem d []) tr))) k = Some a ->
    carries_page_image image_file b64encode stem d k a.
Proof.
  intros stem d tr k a H.
  destruct (extract_all_after stem d tr) as (_ & _ & _ & Hc).
  apply Hc, H.
Qed.

End DocumentFacts.

(** ** The batch of files that open *)

Section BatchFacts.

Variable image_file : string -> nat -> nat -> string -> string.
Variable b64encode : string -> string.

Lemma process_page_appends self page page_num tr :
  fst (process_page image_file b64encode self page page_num tr)
  = fst (process_page image_file b64encode self page page_num [])
  /\ exists new,
       snd (process_page image_file b64encode self page page_num tr)
       = tr ++ new
       /\ json_writes new = [].
Proof.
  rewrite !process_page_eq. cbv zeta.
  destruct (is_empty _ || _).
  - split; [reflexivity|]. exists [PrintSkip (page_num + 1)].
    split; reflexivity.
  - cbn [fst snd].
    destruct (extract_appends image_file b64encode self (get_text page)
                page_num (hd_error (extract_images (doc self) page)) tr)
      as [Hf Hs].
    rewrite Hf. split; [reflexivity | exact Hs].
Qed.

Lemma extract_pages_appends ps :
  forall page_num self tr,
    artworks (fst (extract_pages image_file b64encode ps page_num self tr))
    = artworks (fst (extract_pages image_file b64encode ps page_num self []))
    /\ exists new,
         snd (extract_pages image_file b64encode ps page_num self tr)
         = tr ++ new
         /\ json_writes new = [].
Proof.
  induction ps as [|page ps IH]; intros page_num self tr.
  - split; [reflexivity|]. exists []. split; [symmetry; apply app_nil_r|].
    reflexivity.
  - simpl.
    destruct (process_page_appends self page page_num tr)
      as (Hf & new1 & Hs & Hj).
    destruct (process_page image_file b64encode self page page_num tr)
      as [found tr1].
    destruct (process_page image_file b64encode self page page_num [])
      as [found' tr1'].
    cbn [fst snd] in Hf, Hs. subst found' tr1.
    destruct (IH (page_num + 1) (extend_artworks self found) (tr ++ new1))
      as (Ha & new2 & Hs2 & Hj2).
    destruct (IH (page_num + 1) (extend_artworks self found) tr1')
      as (Ha' & _).
    split; [congruence|].
    exists (new1 ++ new2). split.
    + rewrite Hs2. symmetry. apply app_assoc.
    + rewrite json_writes_app, Hj, Hj2. reflexivity.
Qed.

Lemma process_files_opened good :
  forall all tr,
    exists new,
      process_files image_file b64encode (opened good) all tr
      = (Returned
           (all ++ flat_map (document_records image_file b64encode) good),
         tr ++ new
         ++ summary
              (all ++ flat_map (document_records image_file b64encode) good))
      /\ json_writes new
         = map (fun f => ((fst f ++ "_artworks.json")%string,
                          map preview
                            (document_records image_file b64encode f)))
             good.
Proof.
  induction good as [|[file d] good IH]; intros all tr.
  - exists []. split; [|reflexivity].
    simpl. rewrite app_nil_r. unfold summary.
    destruct (is_empty all); [rewrite app_nil_r|]; reflexivity.
  - simpl opened. simpl process_files.
    destruct (extract_pages_appends (pages d) 0
                {| pdf_path := file; doc := d; artworks := [] |} tr)
      as (Ha & new1 & Hs & Hj).
    unfold extract_all. simpl doc.
    destruct (extract_pages image_file b64encode (pages d) 0
                {| pdf_path := file; doc := d; artworks := [] |} tr)
      as [extractor' tr1].
    cbn [fst snd] in Ha, Hs. subst tr1.
    destruct (IH (all ++ artworks extractor')
                ((tr ++ new1)
                 ++ [WriteJson (file ++ "_artworks.json")
                       (map preview (artworks extractor'))]))
      as (new2 & Hp & Hj2).
    exists (new1
            ++ [WriteJson (file ++ "_artworks.json")
                  (map preview (artworks extractor'))]
            ++ new2).
    assert (Hd : document_records image_file b64encode (file, d)
                 = artworks extractor').
    { unfold document_records, extract_all. simpl. symmetry. exact Ha. }
    split.
    + rewrite Hp. simpl flat_map. rewrite Hd, <- !app_assoc. reflexivity.
    + rewrite !json_writes_app, Hj, Hj2. simpl. rewrite Hd. reflexivity.
Qed.

(** X12.  When every file opens, [process_pdf_files] returns the records
    of the documents, one document after the other, with their image data
    whole; it writes one JSON file per document, in order, holding the
    previews of that document's records, and then, unless there is no
    record at all, the summary file holding the previews of all records. *)
Theorem batch_of_readable_files :
  forall good : list (string * Document),
    let records := flat_map (document_records image_file b64encode) good in
    let r := process_pdf_files image_file b64encode (opened good) in
    fst r = Returned records
    /\ json_writes (snd r)
       = map (fun f => ((fst f ++ "_artworks.json")%string,
                        map preview
                          (document_records image_file b64encode f)))
           good
         ++ (if is_empty records then []
             else [("all_artworks.json"%string, map preview records)]).
Proof.
  intros good records r. unfold r, process_pdf_files.
  destruct (process_files_opened good [] []) as (new & Hp & Hj).
  rewrite Hp. cbn [fst snd app]. fold records.
  split; [reflexivity|].
  rewrite json_writes_app, Hj. f_equal.
  unfold summary. destruct (is_empty records); reflexivity.
Qed.

End BatchFacts.

(** ** The preview of a record *)






(** ** Texts on which a strategy cannot succeed *)

Lemma low_score st :
  fields_found (art st) <= 3 ->
  clears_threshold (art (score_fields st)) = false.
Proof.
  unfold clears_threshold, score_fields. simpl. intros H.
  destruct (fields_found (art st)) as [|[|[|[|n]]]];
    try (vm_compute; reflexivity).
  lia.
Qed.

Lemma few_fields a :
  title a = "" -> medium a = "" \/ year a = "" -> fields_found a <= 3.
Proof.
  intros Ht Hm. unfold fields_found. rewrite Ht.
  destruct Hm as [-> | ->]; simpl;
    repeat match goal with
           | |- context [Str.truthy ?x] => destruct (Str.truthy x)
           end;
    simpl; lia.
Qed.

Lemma fill_from_pattern_other f g pattern s st :
  f <> g ->
  get_field g (art (fill_from_pattern f pattern s st)) = get_field g (art st).
Proof.
  intros Hne. unfold fill_from_pattern.
  destruct (negb (is_set f (art st))); [|reflexivity].
  destruct (Re.search pattern s); [|reflexivity].
  apply get_set_other, Hne.
Qed.

Lemma fill_from_pattern_none f pattern s st :
  Re.search pattern s = None -> fill_from_pattern f pattern s st = st.
Proof.
  intros H. unfold fill_from_pattern. rewrite H.
  destruct (negb (is_set f (art st))); reflexivity.
Qed.

Lemma fill_medium_line_other g line st :
  g <> Medium ->
  get_field g (art (fill_medium_line line st)) = get_field g (art st).
Proof.
  intros Hne. unfold fill_medium_line.
  destruct (negb _ && negb _ && _); [|reflexivity].
  destruct (no_pattern_matches line); [|reflexivity].
  destruct (negb _ && negb _); [|reflexivity].
  apply get_set_other. congruence.
Qed.

Lemma fill_medium_line_year line st :
  Re.matches year_pattern line = true -> fill_medium_line line st = st.
Proof.
  intros H. unfold fill_medium_line, no_pattern_matches. rewrite H.
  destruct (negb _ && negb _ && _); reflexivity.
Qed.

(** One line scanned on a record with no title, year, dimensions or
    medium leaves the title empty, and the medium or the year empty. *)
Lemma scan_line_few st l :
  title (art st) = "" -> year (art st) = "" -> medium (art st) = "" ->
  fields_found (art (scan_line st l)) <= 3.
Proof.
  intros Ht Hy Hm. unfold scan_line.
  destruct (negb (Str.truthy (Str.strip l)));
    [apply few_fields; [exact Ht | left; exact Hm]|].
  set (line := Str.strip l).
  set (s1 := fill_from_pattern Year year_pattern line st).
  set (s3 := fill_from_pattern Price price_pattern line
               (fill_from_pattern Dimensions dimensions_pattern line s1)).
  assert (H13 : forall g, g <> Price -> g <> Dimensions ->
                 get_field g (art s3) = get_field g (art s1)).
  { intros g Hp Hd. unfold s3.
    rewrite !fill_from_pattern_other by congruence. reflexivity. }
  assert (Htitle : get_field Title (art (fill_medium_line line s3))
                   = Some ""%string).
  { rewrite fill_medium_line_other, H13 by discriminate.
    unfold s1. rewrite fill_from_pattern_other by discriminate.
    simpl. rewrite Ht. reflexivity. }
  apply few_fields; [injection Htitle as Htitle; exact Htitle|].
  destruct (Re.search year_pattern line) as [y|] eqn:E.
  - left. rewrite fill_medium_line_year
      by (unfold Re.matches; rewrite E; reflexivity).
    assert (H : get_field Medium (art s3) = Some ""%string).
    { rewrite H13 by discriminate. unfold s1.
      rewrite fill_from_pattern_other by discriminate.
      simpl. rewrite Hm. reflexivity. }
    injection H as H. exact H.
  - right.
    assert (H : get_field Year (art (fill_medium_line line s3))
                = Some ""%string).
    { rewrite fill_medium_line_other, H13 by discriminate.
      unfold s1. rewrite fill_from_pattern_none by exact E.
      simpl. rewrite Hy. reflexivity. }
    injection H as H. exact H.
Qed.

(** The line-break strategy on one line, from the fresh record. *)
Lemma linebreak_one_line text page_num l :
  fields_found
    (art (fold_left scan_line [l]
            (scan_artist_title (firstn 5 [l]) false false
               (emit (Invoke LineBreak) (start text page_num))))) <= 3.
Proof.
  simpl firstn. simpl scan_artist_title. simpl fold_left.
  destruct ((String.length l <? 3) || Str.isdigit l);
    [apply scan_line_few; reflexivity|].
  destruct (negb (is_likely_metadata l)); simpl;
    apply scan_line_few; reflexivity.
Qed.

Lemma linebreak_fails_on_one_line text page_num :
  List.length (Str.stripped_parts Str.newline text) <= 1 ->
  snd (parse_artwork_linebreak_format text (start text page_num)) = false.
Proof.
  intros Hlen. unfold parse_artwork_linebreak_format. cbn [snd].
  apply low_score.
  destruct (Str.stripped_parts Str.newline text) as [|l [|l2 rest]] eqn:E.
  - simpl. unfold fields_found. simpl. lia.
  - apply (linebreak_one_line text page_num l).
  - simpl in Hlen. lia.
Qed.

Lemma inline_no_attempt text st :
  (forall sep, In sep separators ->
               List.length (Str.stripped_parts sep text) < 3) ->
  parse_artwork_inline_format text st = (emit (Invoke Inline) st, false).
Proof.
  intros H. unfold parse_artwork_inline_format.
  rewrite <- (app_nil_r separators).
  rewrite inline_loop_skip by exact H. reflexivity.
Qed.

(** X14.  From the fresh record, the line-break strategy fails on every
    text with at most one non-empty line: it finds at most three of the
    five fields. *)
Theorem linebreak_needs_two_lines :
  forall (text : string) (page_num : nat),
    List.length (Str.stripped_parts Str.newline text) <= 1 ->
    snd (parse_artwork_linebreak_format text (start text page_num)) = false.
Proof.
  intros text page_num H. apply linebreak_fails_on_one_line, H.
Qed.

Section NothingToExtract.

Variable image_file : string -> nat -> nat -> string -> string.
Variable b64encode : string -> string.

(** X15.  On a text with at most one non-empty line that no separator
    splits into three non-empty parts, the field extractor returns no
    record and writes no image: both strategies are entered and fail. *)
Theorem short_text_gives_no_record :
  forall (self : PDFArtworkExtractor) (text : string) (page_num : nat)
         (image : option Image) (tr : list event),
    List.length (Str.stripped_parts Str.newline text) <= 1 ->
    (forall sep, In sep separators ->
                 List.length (Str.stripped_parts sep text) < 3) ->
    exists new,
      extract_artwork_info_from_text image_file b64encode
        self text page_num image tr = (None, tr ++ new)
      /\ invoked new = [LineBreak; Inline]
      /\ image_writes new = [].
Proof.
  intros self text page_num image tr Hlines Hparts.
  unfold extract_artwork_info_from_text. fold (start text page_num).
  rewrite try_strategies_eq.
  rewrite (linebreak_fails_on_one_line text page_num Hlines).
  rewrite (inline_no_attempt text _ Hparts).
  pose proof (fills_linebreak text (start text page_num)
                (start_unset _ _ Artist) (start_unset _ _ Title)) as HA.
  eexists. split; [reflexivity|].
  cbn [trace emit]. rewrite invoked_app, image_writes_app.
  rewrite (fills_invoked _ _ HA), (fills_image_writes _ _ HA).
  split; reflexivity.
Qed.

End NothingToExtract.

(** ** Texts of white space *)

Lemma lstrip_all_space l :
  forallb Chars.isspace l = true -> Str.lstrip l = [].
Proof.
  induction l as [|c l IH]; [reflexivity|].
  simpl. intros H. apply andb_true_iff in H. destruct H as [-> Hl].
  apply IH, Hl.
Qed.

Lemma strip_all_space s :
  forallb Chars.isspace (Str.chars s) = true -> Str.strip s = "".
Proof.
  intros H. unfold Str.strip. rewrite (lstrip_all_space _ H). reflexivity.
Qed.

Lemma split_go_all_space sep l :
  forall skip cur p,
    forallb Chars.isspace cur = true -> forallb Chars.isspace l = true ->
    In p (Str.split_go sep skip cur l) ->
    forallb Chars.isspace (Str.chars p) = true.
Proof.
  induction l as [|c l IH]; intros skip cur p Hcur Hl Hin.
  - simpl in Hin. destruct Hin as [<-|[]]. rewrite chars_of_chars.
    apply forallb_forall. intros x Hx. apply in_rev in Hx.
    rewrite forallb_forall in Hcur. apply Hcur, Hx.
  - simpl in Hl. apply andb_true_iff in Hl. destruct Hl as [Hc Hl].
    simpl in Hin. destruct skip as [|k].
    + destruct (Str.is_prefix sep (c :: l)).
      * destruct Hin as [<-|Hin].
        -- rewrite chars_of_chars.
           apply forallb_forall. intros x Hx. apply in_rev in Hx.
           rewrite forallb_forall in Hcur. apply Hcur, Hx.
        -- apply (IH (List.length sep - 1) [] p); [reflexivity | exact Hl | exact Hin].
      * apply (IH 0 (c :: cur) p); [|exact Hl | exact Hin].
        simpl. rewrite Hc. exact Hcur.
    + apply (IH k cur p); [exact Hcur | exact Hl | exact Hin].
Qed.

Lemma stripped_parts_all_space sep s :
  forallb Chars.isspace (Str.chars s) = true -> Str.stripped_parts sep s = [].
Proof.
  intros H. unfold Str.stripped_parts, Str.split.
  assert (Hall : forall p, In p (Str.split_go (Str.chars sep) 0 [] (Str.chars s)) ->
                           Str.truthy (Str.strip p) = false).
  { intros p Hin.
    rewrite strip_all_space; [reflexivity|].
    apply (split_go_all_space (Str.chars sep) (Str.chars s) 0 [] p);
      [reflexivity | exact H | exact Hin]. }
  induction (Str.split_go (Str.chars sep) 0 [] (Str.chars s)) as [|q l IH];
    [reflexivity|].
  simpl. rewrite (Hall q (or_introl eq_refl)).
  apply IH. intros p Hin. apply Hall. right. exact Hin.
Qed.

Section WhiteSpace.

Variable image_file : string -> nat -> nat -> string -> string.
Variable b64encode : string -> string.

(** X16.  On a text that is empty or holds only white space the field
    extractor returns no record: both strategies are entered, no field is
    assigned and no image is written. *)
Theorem blank_text_gives_no_record :
  forall (self : PDFArtworkExtractor) (text : string) (page_num : nat)
         (image : option Image) (tr : list event),
    forallb Chars.isspace (Str.chars text) = true ->
    extract_artwork_info_from_text image_file b64encode
      self text page_num image tr
    = (None,
       tr ++ [FieldExtractor text page_num; Invoke LineBreak; Invoke Inline]).
Proof.
  intros self text page_num image tr H.
  unfold extract_artwork_info_from_text. fold (start text page_num).
  rewrite try_strategies_eq.
  assert (HA : parse_artwork_linebreak_format text (start text page_num)
               = (score_fields (emit (Invoke LineBreak) (start text page_num)),
                  false)).
  { unfold parse_artwork_linebreak_format.
    rewrite (stripped_parts_all_space Str.newline text H).
    simpl firstn. simpl scan_artist_title. simpl fold_left.
    reflexivity. }
  rewrite HA. cbn [fst snd].
  rewrite inline_no_attempt; [reflexivity|].
  intros sep _. rewrite (stripped_parts_all_space sep text H). simpl. lia.
Qed.

End WhiteSpace.

(** ** Artist, title and medium *)

Lemma fill_medium_part_other g part st :
  g <> Medium ->
  get_field g (art (fill_medium_part part st)) = get_field g (art st).
Proof.
  intros Hne. unfold fill_medium_part.
  destruct (negb _ && negb _ && _); [|reflexivity].
  destruct (no_pattern_matches part); [|reflexivity].
  apply get_set_other. congruence.
Qed.

Lemma scan_line_names st l g :
  g = Title \/ g = Artist ->
  get_field g (art (scan_line st l)) = get_field g (art st).
Proof.
  intros Hg. unfold scan_line.
  destruct (negb (Str.truthy (Str.strip l))); [reflexivity|].
  rewrite fill_medium_line_other, !fill_from_pattern_other;
    [reflexivity| | | |]; destruct Hg; subst g; discriminate.
Qed.

Lemma scan_lines_names lines g :
  g = Title \/ g = Artist ->
  forall st, get_field g (art (fold_left scan_line lines st))
             = get_field g (art st).
Proof.
  intros Hg. induction lines as [|l lines IH]; intros st; [reflexivity|].
  simpl. rewrite IH. apply scan_line_names, Hg.
Qed.

Lemma scan_artist_title_titled lines :
  forall fa ft st,
    fa = is_set Artist (art st) -> ft = is_set Title (art st) ->
    (ft = true -> fa = true) ->
    titled_has_artist (art (scan_artist_title lines fa ft st)).
Proof.
  induction lines as [|line lines IH]; intros fa ft st Ha Ht Himp.
  - simpl. unfold titled_has_artist. rewrite <- Ha, <- Ht. exact Himp.
  - simpl.
    destruct (String.length line <? 3) eqn:El; simpl; [apply IH; assumption|].
    destruct (Str.isdigit line); [apply IH; assumption|].
    assert (Hline : Str.truthy line = true).
    { destruct line; [discriminate El|reflexivity]. }
    destruct (negb fa && negb (is_likely_metadata line)) eqn:E1.
    { apply IH.
      - unfold is_set, assign. simpl. symmetry. exact Hline.
      - rewrite Ht. reflexivity.
      - reflexivity. }
    destruct (fa && negb ft && negb (is_likely_metadata line)) eqn:E2.
    { apply andb_true_iff in E2. destruct E2 as [E2 _].
      apply andb_true_iff in E2. destruct E2 as [E2 _]. subst fa.
      apply IH.
      - reflexivity.
      - unfold is_set, assign. simpl. symmetry. exact Hline.
      - intros _. exact E2. }
    destruct (fa && ft).
    + unfold titled_has_artist. rewrite <- Ha, <- Ht. exact Himp.
    + apply IH; assumption.
Qed.

Lemma scan_artist_title_medium lines :
  forall fa ft st,
    medium (art (scan_artist_title lines fa ft st)) = medium (art st).
Proof.
  induction lines as [|line lines IH]; intros fa ft st; [reflexivity|].
  simpl.
  destruct ((String.length line <? 3) || Str.isdigit line); [apply IH|].
  destruct (negb fa && negb (is_likely_metadata line));
    [rewrite IH; reflexivity|].
  destruct (fa && negb ft && negb (is_likely_metadata line));
    [rewrite IH; reflexivity|].
  destruct (fa && ft); [reflexivity | apply IH].
Qed.

Lemma linebreak_titled text page_num :
  titled_has_artist
    (art (fst (parse_artwork_linebreak_format text (start text page_num)))).
Proof.
  unfold parse_artwork_linebreak_format. cbn [fst].
  set (st1 := scan_artist_title _ false false _).
  assert (H1 : titled_has_artist (art st1)).
  { apply scan_artist_title_titled; try reflexivity. discriminate. }
  unfold titled_has_artist, is_set in *. simpl art.
  change (get_field Title (set_confidence_score _ ?a))
    with (get_field Title a).
  change (get_field Artist (set_confidence_score _ ?a))
    with (get_field Artist a).
  rewrite !scan_lines_names by auto. exact H1.
Qed.

Lemma inline_attempt_artist parts st :
  (forall p, In p parts -> Str.truthy p = true) ->
  (3 <=? List.length parts) = true ->
  is_set Artist (art (inline_attempt parts st)) = true.
Proof.
  intros Hp Hlen.
  destruct (is_set Artist (art st)) eqn:E.
  - apply (fills_set st); [|exact E].
    apply fills_inline_attempt; [exact Hp | exact Hlen | apply fills_refl].
  - destruct (inline_attempt_first_parts parts st Hp Hlen) as [Ha _].
    unfold is_set. rewrite (Ha E). apply Hp, nth_In.
    apply Nat.leb_le in Hlen. lia.
Qed.

Lemma inline_loop_titled text seps :
  forall st, titled_has_artist (art st) ->
             titled_has_artist (art (fst (inline_loop seps text st))).
Proof.
  induction seps as [|sep seps IH]; intros st H; [exact H|].
  rewrite inline_loop_cons.
  destruct (3 <=? List.length (Str.stripped_parts sep text)) eqn:El;
    [|apply IH, H].
  pose proof (inline_attempt_artist (Str.stripped_parts sep text) st
                (stripped_parts_truthy sep text) El) as Ha.
  destruct (clears_threshold _); [intros _; exact Ha|].
  apply IH. intros _. exact Ha.
Qed.

Lemma try_strategies_titled text page_num :
  titled_has_artist (art (fst (try_strategies text (start text page_num)))).
Proof.
  rewrite try_strategies_eq.
  pose proof (linebreak_titled text page_num) as HA.
  destruct (snd (parse_artwork_linebreak_format text (start text page_num)));
    [exact HA|].
  unfold parse_artwork_inline_format. apply inline_loop_titled. exact HA.
Qed.

Lemma scan_line_medium_apart st l :
  medium_apart (art st) -> medium_apart (art (scan_line st l)).
Proof.
  intros H. unfold scan_line.
  destruct (negb (Str.truthy (Str.strip l))); [exact H|].
  set (line := Str.strip l).
  set (s3 := fill_from_pattern Price price_pattern line
               (fill_from_pattern Dimensions dimensions_pattern line
                  (fill_from_pattern Year year_pattern line st))).
  assert (H3 : forall g, g = Title \/ g = Artist \/ g = Medium ->
                 get_field g (art s3) = get_field g (art st)).
  { intros g Hg. unfold s3. rewrite !fill_from_pattern_other;
      [reflexivity| | |]; destruct Hg as [->|[->| ->]]; discriminate. }
  pose proof (H3 Title (or_introl eq_refl)) as Ht.
  pose proof (H3 Artist (or_intror (or_introl eq_refl))) as Ha.
  pose proof (H3 Medium (or_intror (or_intror eq_refl))) as Hm.
  simpl in Ht, Ha, Hm. injection Ht as Ht. injection Ha as Ha.
  injection Hm as Hm.
  assert (H' : medium_apart (art s3)).
  { unfold medium_apart. rewrite Ht, Ha, Hm. exact H. }
  clearbody s3. clear -H'. unfold fill_medium_line.
  destruct (negb _ && negb _ && _); [|exact H'].
  destruct (no_pattern_matches line); [|exact H'].
  destruct (negb (line =? artist (art s3))%string
            && negb (line =? title (art s3))%string) eqn:E; [|exact H'].
  apply andb_true_iff in E. destruct E as [E1 E2].
  apply negb_true_iff in E1, E2.
  apply String.eqb_neq in E1, E2.
  right. simpl. split; assumption.
Qed.

(** X17.  In the record the line-break strategy builds from the fresh
    record, the medium, when set, is neither the artist nor the title. *)
Theorem linebreak_medium_apart :
  forall (text : string) (page_num : nat),
    let a := art (fst (parse_artwork_linebreak_format text
                         (start text page_num))) in
    medium a = "" \/ (medium a <> artist a /\ medium a <> title a).
Proof.
  intros text page_num. cbv zeta.
  unfold parse_artwork_linebreak_format. cbn [fst].
  change (medium_apart
            (art (fold_left scan_line (Str.stripped_parts Str.newline text)
                    (scan_artist_title
                       (firstn 5 (Str.stripped_parts Str.newline text))
                       false false
                       (emit (Invoke LineBreak) (start text page_num)))))).
  set (st1 := scan_artist_title _ false false _).
  assert (H1 : medium_apart (art st1)).
  { left. unfold st1. rewrite scan_artist_title_medium. reflexivity. }
  revert H1. generalize st1.
  induction (Str.stripped_parts Str.newline text) as [|l lines IH];
    intros st H; [exact H|].
  simpl. apply IH, scan_line_medium_apart, H.
Qed.

Section Names.

Variable image_file : string -> nat -> nat -> string -> string.
Variable b64encode : string -> string.

(** X18.  A record the field extractor returns with a title has an
    artist. *)
Theorem title_needs_artist :
  forall (self : PDFArtworkExtractor) (text : string) (page_num : nat)
         (image : option Image) (tr : list event) (a : Artwork),
    fst (extract_artwork_info_from_text image_file b64encode
           self text page_num image tr) = Some a ->
    title a <> "" -> artist a <> "".
Proof.
  intros self text page_num image tr a H Ht.
  destruct (extract_cases image_file b64encode self text page_num image tr)
    as (w & _ & _ & Hr).
  destruct (snd (try_strategies text (start text page_num))); [|congruence].
  destruct Hr as (a' & Ha' & Hd & _). rewrite H in Ha'. injection Ha' as <-.
  pose proof (try_strategies_titled text page_num) as Hinv.
  unfold titled_has_artist, is_set in Hinv.
  rewrite <- (Hd Title), <- (Hd Artist) in Hinv. simpl in Hinv.
  intros Hartist. rewrite Hartist in Hinv.
  destruct (title a); [contradiction|].
  specialize (Hinv eq_refl). discriminate Hinv.
Qed.

End Names.

(** ** The image files of a document *)

Section ImageFiles.

Variable image_file : string -> nat -> nat -> string -> string.
Variable b64encode : string -> string.

Lemma extract_image_writes self text page_num img tr :
  exists new,
    snd (extract_artwork_info_from_text image_file b64encode
           self text page_num (Some img) tr) = tr ++ new
    /\ map (fun w => Some (fst w)) (image_writes new)
       = map image_path
           (record_list
              (fst (extract_artwork_info_from_text image_file b64encode
                      self text page_num (Some img) tr))).
Proof.
  unfold extract_artwork_info_from_text. fold (start text page_num).
  destruct (try_strategies_quiet text page_num) as (_ & Hq & _).
  destruct (try_strategies text (start text page_num)) as [st ok].
  cbn [fst] in Hq. destruct ok; simpl.
  - eexists. split; [reflexivity|].
    rewrite image_writes_app, Hq. reflexivity.
  - exists (trace st). split; [reflexivity|]. rewrite Hq. reflexivity.
Qed.

Lemma process_page_image_writes self page page_num tr :
  exists new,
    snd (process_page image_file b64encode self page page_num tr) = tr ++ new
    /\ map (fun w => Some (fst w)) (image_writes new)
       = map image_path
           (fst (process_page image_file b64encode self page page_num tr)).
Proof.
  rewrite process_page_eq. cbv zeta.
  destruct (is_empty _ || _) eqn:Eskip.
  - exists [PrintSkip (page_num + 1)]. split; reflexivity.
  - destruct (extract_images (doc self) page) as [|img rest];
      [discriminate Eskip|].
    cbn [hd_error fst snd]. apply extract_image_writes.
Qed.

Lemma extract_pages_image_writes ps :
  forall page_num self tr,
    exists new added,
      snd (extract_pages image_file b64encode ps page_num self tr) = tr ++ new
      /\ artworks (fst (extract_pages image_file b64encode ps page_num self tr))
         = artworks self ++ added
      /\ map (fun w => Some (fst w)) (image_writes new)
         = map image_path added.
Proof.
  induction ps as [|page ps IH]; intros page_num self tr.
  - exists [], []. simpl. rewrite !app_nil_r. repeat split.
  - simpl.
    destruct (process_page_image_writes self page page_num tr)
      as (new1 & Hs & Hw).
    destruct (process_page image_file b64encode self page page_num tr)
      as [found tr1].
    cbn [fst snd] in Hs, Hw. subst tr1.
    destruct (IH (page_num + 1) (extend_artworks self found) (tr ++ new1))
      as (new2 & added & Hs2 & Ha2 & Hw2).
    exists (new1 ++ new2), (found ++ added). split; [|split].
    + rewrite Hs2. symmetry. apply app_assoc.
    + rewrite Ha2. simpl. symmetry. apply app_assoc.
    + rewrite image_writes_app, !map_app, Hw, Hw2. reflexivity.
Qed.

(** X19.  [extract_all] writes one image file per record it returns, in
    the order of the records, each at the path the record holds as its
    [image_path]; it writes no other image file. *)
Theorem one_image_file_per_record :
  forall (stem : string) (d : Document) (tr : list event),
    let r := extract_all image_file b64encode (mkExtractor stem d []) tr in
    exists new,
      snd r = tr ++ new
      /\ map (fun w => Some (fst w)) (image_writes new)
         = map image_path (artworks (fst r)).
Proof.
  intros stem d tr r. unfold r, extract_all. cbn [doc].
  destruct (extract_pages_image_writes (pages d) 0 (mkExtractor stem d []) tr)
    as (new & added & Hs & Ha & Hw).
  exists new. split; [exact Hs|]. rewrite Ha. exact Hw.
Qed.

End ImageFiles.

(** ** The further properties at concrete inputs *)

Lemma sanitize_filename_fixed_on_sample :
  Path.sanitize_filename "cat_page1_artwork1.png" = "cat_page1_artwork1.png".
Proof.
  apply sanitize_filename_fixed; vm_compute; [reflexivity | lia].
Defined.

Lemma sanitize_filename_keeps_jpeg :
  Path.sanitize_filename (long_name ++ String "." "jpeg")
  = (Str.of_chars (firstn 196 (Str.chars (Path.clean long_name)))
     ++ String "." (Path.clean "jpeg"))%string.
Proof.
  apply sanitize_filename_keeps_extension; vm_compute;
    [reflexivity | reflexivity | lia].
Defined.

Lemma sanitize_filename_idempotent_on_sample :
  Path.sanitize_filename (Path.sanitize_filename "a<b>c?.png")
  = Path.sanitize_filename "a<b>c?.png".
Proof.
  apply sanitize_filename_idempotent. vm_compute. lia.
Defined.

Lemma fields_occur_in_scenario1 :
  get_field Artist scenario1_record = Some "Jane Doe"%string
  /\ substring_of "Jane Doe" scenario1.
Proof.
  split; [reflexivity|].
  apply (fields_occur_in_text sample_image_file sample_b64encode
           (mkExtractor "cat" catalog []) scenario1 0 None []
           scenario1_record) with (f := Artist);
    vm_compute; reflexivity.
Defined.

Lemma year_of_record_on_scenario1 :
  year scenario1_record = ""
  \/ exists c d,
       year scenario1_record
       = String "1" (String "9" (String c (String d "")))
       \/ year scenario1_record
          = String "2" (String "0" (String c (String d ""))).
Proof.
  apply (year_of_record sample_image_file sample_b64encode
           (mkExtractor "cat" catalog []) scenario1 0 None []).
  vm_compute. reflexivity.
Defined.

Lemma medium_of_record_on_scenario1 :
  medium scenario1_record = "" \/ medium_shape (medium scenario1_record).
Proof.
  apply (medium_of_record sample_image_file sample_b64encode
           (mkExtractor "cat" catalog []) scenario1 0 None []).
  vm_compute. reflexivity.
Defined.

Lemma title_needs_artist_on_scenario1 :
  title scenario1_record <> "" /\ artist scenario1_record <> "".
Proof.
  assert (Ht : title scenario1_record <> ""%string) by discriminate.
  split; [exact Ht|].
  apply (title_needs_artist sample_image_file sample_b64encode
           (mkExtractor "cat" catalog []) scenario1 0 None []);
    [vm_compute; reflexivity | exact Ht].
Defined.

Lemma page_uses_largest_image_on_catalog :
  exists page largest,
    pages catalog = [page]
    /\ hd_error (extract_images catalog page) = Some largest
    /\ process_page sample_image_file sample_b64encode
         (mkExtractor "cat" catalog []) page 0 []
       = (record_list
            (fst (extract_artwork_info_from_text sample_image_file
                    sample_b64encode (mkExtractor "cat" catalog [])
                    (get_text page) 0 (Some largest) [])),
          snd (extract_artwork_info_from_text sample_image_file
                 sample_b64encode (mkExtractor "cat" catalog [])
                 (get_text page) 0 (Some largest) [])).
Proof.
  exists {| get_text := scenario1; get_images := [7] |}.
  destruct (page_uses_largest_image sample_image_file sample_b64encode
              (mkExtractor "cat" catalog [])
              {| get_text := scenario1; get_images := [7] |} 0 [])
    as (largest & Hhd & _ & Heq).
  - intros [H|[H _]]; vm_compute in H; [discriminate H | lia].
  - exists largest. split; [reflexivity|]. split; [exact Hhd | exact Heq].
Defined.

Lemma records_carry_images_on_catalog :
  exists a,
    nth_error (artworks (fst (extract_all sample_image_file sample_b64encode
                                (mkExtractor "cat" catalog []) []))) 0
    = Some a
    /\ carries_page_image sample_image_file sample_b64encode "cat" catalog 0 a.
Proof.
  eexists. split; [vm_compute; reflexivity|].
  apply (records_carry_images sample_image_file sample_b64encode
           "cat" catalog [] 0).
  vm_compute. reflexivity.
Defined.

Lemma linebreak_needs_two_lines_on_scenario3 :
  snd (parse_artwork_linebreak_format scenario3 (start scenario3 0)) = false.
Proof.
  apply linebreak_needs_two_lines. vm_compute. lia.
Defined.

Lemma short_text_gives_no_record_on_name :
  exists new,
    extract_artwork_info_from_text sample_image_file sample_b64encode
      (mkExtractor "cat" catalog []) "Jane Doe" 0 None [] = (None, [] ++ new)
    /\ invoked new = [LineBreak; Inline]
    /\ image_writes new = [].
Proof.
  apply (short_text_gives_no_record sample_image_file sample_b64encode
           (mkExtractor "cat" catalog []) "Jane Doe" 0 None []).
  - vm_compute. lia.
  - intros sep [<-|[<-|[<-|[<-|[]]]]]; vm_compute; lia.
Defined.

Lemma blank_text_gives_no_record_on_spaces :
  extract_artwork_info_from_text sample_image_file sample_b64encode
    (mkExtractor "cat" catalog []) ("  " ++ Str.newline ++ " ") 0 None []
  = (None,
     [] ++ [FieldExtractor ("  " ++ Str.newline ++ " ") 0;
            Invoke LineBreak; Invoke Inline]).
Proof.
  apply (blank_text_gives_no_record sample_image_file sample_b64encode
           (mkExtractor "cat" catalog []) ("  " ++ Str.newline ++ " ")
           0 None []).
  vm_compute. reflexivity.
Defined.

(** * The order of the strategies and of the matches *)

(** ** The attempts of the inline strategy *)

Lemma inline_loop_attempts text seps :
  forall st,
    match find clearing (separator_attempts seps text st) with
    | Some s => inline_loop seps text st = (s, true)
    | None => snd (inline_loop seps text st) = false
    end.
Proof.
  induction seps as [|sep seps IH]; intros st; [reflexivity|].
  rewrite inline_loop_cons. cbn [separator_attempts].
  destruct (3 <=? List.length (Str.stripped_parts sep text)); [|apply IH].
  cbn [find]. unfold clearing at 1.
  destruct (clears_threshold
              (art (inline_attempt (Str.stripped_parts sep text) st)));
    [reflexivity | apply IH].
Qed.

Lemma inline_loop_flag text seps :
  forall st,
    clears_threshold (art st) = false ->
    snd (inline_loop seps text st)
    = clears_threshold (art (fst (inline_loop seps text st))).
Proof.
  induction seps as [|sep seps IH]; intros st H.
  - simpl. symmetry. exact H.
  - rewrite inline_loop_cons.
    destruct (3 <=? List.length (Str.stripped_parts sep text));
      [|apply IH, H].
    destruct (clears_threshold
                (art (inline_attempt (Str.stripped_parts sep text) st)))
      eqn:E; [symmetry; exact E | apply IH, E].
Qed.

Section StrategyOrder.

Variable image_file : string -> nat -> nat -> string -> string.
Variable b64encode : string -> string.

(** What a call returns, from the scores alone: the record of the
    line-break strategy when its score clears 0.6, and otherwise the
    record of the first attempt of the inline strategy whose score
    does. *)
Lemma extract_by_scores self text page_num image tr :
  let A := parse_artwork_linebreak_format text (start text page_num) in
  let B := parse_artwork_inline_format text (fst A) in
  let attempts :=
    separator_attempts separators text (emit (Invoke Inline) (fst A)) in
  let r := extract_artwork_info_from_text image_file b64encode
             self text page_num image tr in
  if clears_threshold (art (fst A))
  then exists a, fst r = Some a /\ same_description a (art (fst A))
  else snd B = clears_threshold (art (fst B))
       /\ match find clearing attempts with
          | Some s =>
              fst B = s
              /\ exists a, fst r = Some a /\ same_description a (art s)
                           /\ clears_threshold a = true
          | None => clears_threshold (art (fst B)) = false /\ fst r = None
          end.
Proof.
  intros A B attempts r.
  destruct (extract_cases image_file b64encode self text page_num image tr)
    as (w & _ & _ & Hr).
  fold r in Hr. rewrite try_strategies_eq in Hr. fold A in Hr.
  change (clears_threshold (art (fst A))) with (snd A).
  destruct (snd A) eqn:EA; [exact Hr|].
  fold B in Hr.
  assert (Hflag : snd B = clears_threshold (art (fst B))).
  { unfold B, parse_artwork_inline_format. apply inline_loop_flag.
    simpl. exact EA. }
  split; [exact Hflag|].
  pose proof (inline_loop_attempts text separators
                (emit (Invoke Inline) (fst A))) as Hat.
  fold attempts in Hat.
  destruct (find clearing attempts) as [s|].
  - change (inline_loop separators text (emit (Invoke Inline) (fst A)))
      with B in Hat.
    rewrite Hat in Hr |- *. cbn [fst snd] in Hr |- *.
    split; [reflexivity|].
    destruct Hr as (a & Ha & Hd). exists a. split; [exact Ha|].
    split; [exact Hd|].
    apply (extract_accepted image_file b64encode self text page_num image tr).
    exact Ha.
  - change (inline_loop separators text (emit (Invoke Inline) (fst A)))
      with B in Hat.
    rewrite Hat in Hr. split; [|exact Hr].
    rewrite <- Hflag. exact Hat.
Qed.

(** C2.  [extract_artwork_info_from_text] enters the line-break strategy
    first.  When the score that strategy computes clears 0.6 the call
    returns its record and the inline strategy is not entered.  Otherwise
    the inline strategy is entered next, on the same record; it reports
    success exactly when the score on the record it leaves clears 0.6; the
    call returns the record of the first attempt, in the order of the
    separators, whose score clears 0.6, and nothing when the score of no
    attempt does.  [new] is what the call adds to the trace. *)
Theorem strategy_order :
  forall (self : PDFArtworkExtractor) (text : string) (page_num : nat)
         (image : option Image) (tr : list event),
    let A := parse_artwork_linebreak_format text (start text page_num) in
    let B := parse_artwork_inline_format text (fst A) in
    let attempts :=
      separator_attempts separators text (emit (Invoke Inline) (fst A)) in
    let r := extract_artwork_info_from_text image_file b64encode
               self text page_num image tr in
    exists new,
      snd r = tr ++ new
      /\ if clears_threshold (art (fst A))
         then invoked new = [LineBreak]
              /\ exists a, fst r = Some a /\ same_description a (art (fst A))
         else invoked new = [LineBreak; Inline]
              /\ snd B = clears_threshold (art (fst B))
              /\ match find clearing attempts with
                 | Some s =>
                     fst B = s
                     /\ exists a, fst r = Some a
                                  /\ same_description a (art s)
                                  /\ clears_threshold a = true
                 | None =>
                     clears_threshold (art (fst B)) = false /\ fst r = None
                 end.
Proof.
  intros self text page_num image tr A B attempts r.
  destruct (extract_cases image_file b64encode self text page_num image tr)
    as (w & Htr & Hw & _).
  fold r in Htr.
  pose proof (extract_by_scores self text page_num image tr) as Hs.
  cbv zeta in Hs. fold A in Hs. fold B in Hs. fold attempts in Hs.
  fold r in Hs.
  exists (trace (fst (try_strategies text (start text page_num))) ++ w).
  split; [exact Htr|].
  assert (Hinv : invoked w = []).
  { destruct Hw as [->|(p & b & ->)]; reflexivity. }
  rewrite invoked_app, Hinv, app_nil_r.
  rewrite try_strategies_eq. fold A.
  change (clears_threshold (art (fst A))) with (snd A) in Hs |- *.
  destruct (snd A) eqn:EA.
  - cbn [fst]. split; [apply invoked_linebreak | exact Hs].
  - fold B. split; [|exact Hs].
    unfold B. rewrite invoked_inline. unfold A.
    rewrite invoked_linebreak. reflexivity.
Qed.

End StrategyOrder.

(** ** Stripped lines stay as they are when stripped again *)

Lemma lstrip_head l :
  match Str.lstrip l with
  | [] => True
  | c :: _ => Chars.isspace c = false
  end.
Proof.
  induction l as [|c l IH]; [exact I|].
  simpl. destruct (Chars.isspace c) eqn:E; [exact IH | exact E].
Qed.

Lemma lstrip_fixed l :
  match l with [] => True | c :: _ => Chars.isspace c = false end ->
  Str.lstrip l = l.
Proof. destruct l as [|c l]; [reflexivity|]. simpl. intros ->. reflexivity. Qed.

Lemma strip_idempotent s : Str.strip (Str.strip s) = Str.strip s.
Proof.
  unfold Str.strip. rewrite chars_of_chars.
  set (y := Str.lstrip (Str.chars s)).
  set (z := Str.lstrip (rev y)).
  assert (Hy : match y with [] => True | c :: _ => Chars.isspace c = false end)
    by apply lstrip_head.
  assert (Hz : match z with [] => True | c :: _ => Chars.isspace c = false end)
    by apply lstrip_head.
  destruct (lstrip_suffix (rev y)) as (sp & Hsp). fold z in Hsp.
  assert (Hyz : y = rev z ++ rev sp).
  { rewrite <- rev_app_distr, <- Hsp, rev_involutive. reflexivity. }
  assert (H1 : Str.lstrip (rev z) = rev z).
  { apply lstrip_fixed. destruct (rev z) as [|c l]; [exact I|].
    rewrite Hyz in Hy. exact Hy. }
  rewrite H1, rev_involutive, (lstrip_fixed z Hz). reflexivity.
Qed.

Lemma stripped_parts_stripped sep s l :
  In l (Str.stripped_parts sep s) -> Str.strip l = l /\ Str.truthy l = true.
Proof.
  intros H. split; [|eapply stripped_parts_truthy, H].
  unfold Str.stripped_parts in H. apply in_map_iff in H.
  destruct H as (q & <- & _). apply strip_idempotent.
Qed.

(** ** Each step fills an empty field with what it finds *)

Lemma art_fill_from_pattern f pattern s st :
  art (fill_from_pattern f pattern s st)
  = first_fill f (Re.search pattern s) (art st).
Proof.
  unfold fill_from_pattern, first_fill.
  destruct (is_set f (art st)); simpl; [reflexivity|].
  destruct (Re.search pattern s); reflexivity.
Qed.

Lemma art_fill_medium_part part st :
  art (fill_medium_part part st)
  = first_fill Medium (if medium_part part then Some part else None) (art st).
Proof.
  unfold fill_medium_part, first_fill, medium_part.
  destruct (is_set Medium (art st)); simpl; [reflexivity|].
  destruct (is_likely_metadata part); simpl; [reflexivity|].
  destruct (5 <? String.length part); simpl; [|reflexivity].
  destruct (no_pattern_matches part); reflexivity.
Qed.

Lemma art_fill_medium_line line st :
  art (fill_medium_line line st)
  = first_fill Medium
      (if medium_line (artist (art st)) (title (art st)) line
       then Some line else None) (art st).
Proof.
  unfold fill_medium_line, first_fill, medium_line.
  destruct (is_set Medium (art st)); simpl; [reflexivity|].
  destruct (is_likely_metadata line); simpl; [reflexivity|].
  destruct (5 <? String.length line); simpl; [|reflexivity].
  destruct (no_pattern_matches line); simpl; [|reflexivity].
  destruct (negb (line =? artist (art st))%string
            && negb (line =? title (art st))%string); reflexivity.
Qed.

Lemma first_fill_names f found a :
  f <> Artist -> f <> Title ->
  artist (first_fill f found a) = artist a
  /\ title (first_fill f found a) = title a.
Proof.
  intros Ha Ht. unfold first_fill.
  destruct (is_set f a); [split; reflexivity|].
  destruct found; [|split; reflexivity].
  destruct f; try contradiction; split; reflexivity.
Qed.

(** The four fills of one line or part, as one record. *)
Lemma four_fills fy fd fp fm a :
  first_fill Medium fm
    (first_fill Price fp (first_fill Dimensions fd (first_fill Year fy a)))
  = mkArtwork (title a) (artist a)
      (keep_or (year a) fy) (keep_or (dimensions a) fd)
      (keep_or (medium a) fm) (keep_or_opt (price a) fp)
      (image_path a) (image_data a) (page_number a) (confidence_score a).
Proof.
  destruct a as [t ar y d m p ip idt pn cs].
  unfold first_fill, is_set, keep_or, keep_or_opt. simpl.
  destruct (Str.truthy y), fy; simpl;
    destruct (Str.truthy d), fd; simpl;
    destruct (Str.truthy_opt p), fp; simpl;
    destruct (Str.truthy m), fm; reflexivity.
Qed.

Lemma option_eta {A : Type} (o : option A) :
  match o with Some m => Some m | None => None end = o.
Proof. destruct o; reflexivity. Qed.

Lemma first_matches_one ok l a :
  first_matches ok [l] a
  = first_fill Medium (if ok l then Some l else None)
      (first_fill Price (Re.search price_pattern l)
         (first_fill Dimensions (Re.search dimensions_pattern l)
            (first_fill Year (Re.search year_pattern l) a))).
Proof.
  rewrite four_fills. unfold first_matches. cbn [first_group find].
  rewrite !option_eta. reflexivity.
Qed.

Lemma keep_or_step cur found1 found2 :
  (forall m, found1 = Some m -> Str.truthy m = true) ->
  keep_or cur (match found1 with Some m => Some m | None => found2 end)
  = keep_or (keep_or cur found1) found2.
Proof.
  intros H. unfold keep_or.
  destruct (Str.truthy cur) eqn:Ec; [rewrite Ec; reflexivity|].
  destruct found1 as [m|]; [rewrite (H m eq_refl); reflexivity|].
  rewrite Ec. reflexivity.
Qed.

Lemma keep_or_opt_step cur found1 found2 :
  (forall m, found1 = Some m -> Str.truthy m = true) ->
  keep_or_opt cur (match found1 with Some m => Some m | None => found2 end)
  = keep_or_opt (keep_or_opt cur found1) found2.
Proof.
  intros H. unfold keep_or_opt.
  destruct (Str.truthy_opt cur) eqn:Ec; [rewrite Ec; reflexivity|].
  destruct found1 as [m|]; [simpl; rewrite (H m eq_refl); reflexivity|].
  rewrite Ec. reflexivity.
Qed.

Lemma first_matches_cons ok l ls a :
  (ok l = true -> Str.truthy l = true) ->
  first_matches ok (l :: ls) a = first_matches ok ls (first_matches ok [l] a).
Proof.
  intros Hok. unfold first_matches. cbn [first_group find].
  cbn [title artist year dimensions medium price image_path image_data
       page_number confidence_score].
  rewrite !option_eta.
  rewrite !keep_or_step, keep_or_opt_step;
    try (intros m Hm; eapply ReFacts.search_truthy; [|exact Hm];
         apply patterns_consuming).
  f_equal. unfold keep_or.
  destruct (Str.truthy (medium a)) eqn:Em; [rewrite Em; reflexivity|].
  destruct (ok l) eqn:El; [rewrite (Hok eq_refl); reflexivity|].
  rewrite Em. reflexivity.
Qed.

Lemma first_matches_nil ok a : first_matches ok [] a = a.
Proof.
  destruct a as [t ar y d m p ip idt pn cs].
  unfold first_matches, keep_or, keep_or_opt. simpl.
  destruct (Str.truthy y), (Str.truthy d), (Str.truthy m),
    (Str.truthy_opt p); reflexivity.
Qed.

Lemma medium_part_truthy l : medium_part l = true -> Str.truthy l = true.
Proof.
  unfold medium_part. intros H.
  apply andb_true_iff in H. destruct H as [H _].
  apply andb_true_iff in H. destruct H as [_ H].
  eapply length_truthy, H.
Qed.

Lemma medium_line_truthy ar t l :
  medium_line ar t l = true -> Str.truthy l = true.
Proof.
  unfold medium_line. intros H.
  do 3 (apply andb_true_iff in H; destruct H as [H _]).
  apply andb_true_iff in H. destruct H as [_ H].
  eapply length_truthy, H.
Qed.

Lemma art_scan_part st part :
  art (scan_part st part) = first_matches medium_part [part] (art st).
Proof.
  unfold scan_part.
  rewrite art_fill_medium_part, !art_fill_from_pattern, first_matches_one.
  reflexivity.
Qed.

Lemma art_scan_parts parts :
  forall st, art (fold_left scan_part parts st)
             = first_matches medium_part parts (art st).
Proof.
  induction parts as [|p parts IH]; intros st.
  - simpl. symmetry. apply first_matches_nil.
  - simpl. rewrite IH, art_scan_part. symmetry.
    apply first_matches_cons, medium_part_truthy.
Qed.

Lemma art_scan_line st l :
  Str.strip l = l -> Str.truthy l = true ->
  art (scan_line st l)
  = first_matches (medium_line (artist (art st)) (title (art st))) [l]
      (art st).
Proof.
  intros Hs Ht. unfold scan_line. rewrite Hs, Ht. simpl negb. cbv iota.
  rewrite art_fill_medium_line, !art_fill_from_pattern, first_matches_one.
  set (a3 := first_fill Price _ _).
  assert (Hn : artist a3 = artist (art st) /\ title a3 = title (art st)).
  { unfold a3.
    destruct (first_fill_names Price (Re.search price_pattern l)
                (first_fill Dimensions (Re.search dimensions_pattern l)
                   (first_fill Year (Re.search year_pattern l) (art st))))
      as [-> ->]; try discriminate.
    destruct (first_fill_names Dimensions (Re.search dimensions_pattern l)
                (first_fill Year (Re.search year_pattern l) (art st)))
      as [-> ->]; try discriminate.
    apply first_fill_names; discriminate. }
  destruct Hn as [-> ->]. reflexivity.
Qed.

Lemma art_scan_lines lines :
  (forall l, In l lines -> Str.strip l = l /\ Str.truthy l = true) ->
  forall st, art (fold_left scan_line lines st)
             = first_matches
                 (medium_line (artist (art st)) (title (art st))) lines
                 (art st).
Proof.
  induction lines as [|l lines IH]; intros Hl st.
  - simpl. symmetry. apply first_matches_nil.
  - destruct (Hl l (or_introl eq_refl)) as [Hs Ht].
    simpl. rewrite IH by (intros x Hx; apply Hl; right; exact Hx).
    rewrite (art_scan_line st l Hs Ht).
    symmetry. apply first_matches_cons, medium_line_truthy.
Qed.

(** ** The first five lines give artist and title *)

Lemma scan_names_done lines :
  forall st, art (scan_artist_title lines true true st) = art st.
Proof.
  induction lines as [|l lines IH]; intros st; [reflexivity|].
  cbn [scan_artist_title].
  destruct ((String.length l <? 3) || Str.isdigit l); [apply IH|].
  reflexivity.
Qed.

Lemma scan_names_title lines :
  forall st,
    art (scan_artist_title lines true false st)
    = match filter name_line lines with
      | [] => art st
      | l :: _ => set_field Title l (art st)
      end.
Proof.
  induction lines as [|l lines IH]; intros st; [reflexivity|].
  cbn [scan_artist_title filter]. unfold name_line at 1.
  destruct ((String.length l <? 3) || Str.isdigit l); [apply IH|].
  destruct (is_likely_metadata l); cbn [negb andb]; [apply IH|].
  rewrite scan_names_done. reflexivity.
Qed.

Lemma scan_names_artist lines :
  forall st,
    art (scan_artist_title lines false false st)
    = match filter name_line lines with
      | [] => art st
      | [l] => set_field Artist l (art st)
      | l1 :: l2 :: _ => set_field Title l2 (set_field Artist l1 (art st))
      end.
Proof.
  induction lines as [|l lines IH]; intros st; [reflexivity|].
  cbn [scan_artist_title filter]. unfold name_line at 1.
  destruct ((String.length l <? 3) || Str.isdigit l); [apply IH|].
  destruct (is_likely_metadata l); cbn [negb andb]; [apply IH|].
  rewrite scan_names_title.
  destruct (filter name_line lines); reflexivity.
Qed.

Lemma art_score_fields st : art (score_fields st) = with_score (art st).
Proof. reflexivity. Qed.

(** ** Both strategies fill each field with its first match *)

Lemma linebreak_spec text page_num :
  art (fst (parse_artwork_linebreak_format text (start text page_num)))
  = linebreak_first_matches text (page_num + 1).
Proof.
  unfold parse_artwork_linebreak_format, linebreak_first_matches.
  cbn [fst]. rewrite art_score_fields. f_equal.
  set (lines := Str.stripped_parts Str.newline text).
  rewrite art_scan_lines
    by (intros l Hl; eapply stripped_parts_stripped, Hl).
  rewrite scan_names_artist.
  cbn [art emit start].
  assert (Hn : match filter name_line (firstn 5 lines) with
               | [] => new_artwork (page_num + 1)
               | [l] => set_field Artist l (new_artwork (page_num + 1))
               | l1 :: l2 :: _ =>
                   set_field Title l2
                     (set_field Artist l1 (new_artwork (page_num + 1)))
               end
               = named (filter name_line (firstn 5 lines)) (page_num + 1)).
  { destruct (filter name_line (firstn 5 lines)) as [|l1 [|l2 r]];
      reflexivity. }
  rewrite Hn. reflexivity.
Qed.

Lemma attempt_spec parts st :
  art (inline_attempt parts st) = attempt_first_matches parts (art st).
Proof.
  unfold inline_attempt, attempt_first_matches.
  rewrite art_score_fields, art_scan_parts. f_equal. f_equal.
  destruct st as [a tr]. destruct a as [t ar y d m p ip idt pn cs].
  unfold is_set, keep_or, assign. cbn.
  destruct (Str.truthy ar); cbn; destruct (Str.truthy t); reflexivity.
Qed.

Lemma attempts_spec text seps :
  forall st,
    map art (separator_attempts seps text st)
    = attempts_first_matches seps text (art st).
Proof.
  induction seps as [|sep seps IH]; intros st; [reflexivity|].
  cbn [separator_attempts attempts_first_matches].
  destruct (3 <=? List.length (Str.stripped_parts sep text)); [|apply IH].
  cbn [map]. rewrite IH, attempt_spec. reflexivity.
Qed.

Lemma inline_loop_settles text seps :
  forall st,
    art (fst (inline_loop seps text st))
    = settle (attempts_first_matches seps text (art st)) (art st).
Proof.
  induction seps as [|sep seps IH]; intros st; [reflexivity|].
  rewrite inline_loop_cons. cbn [attempts_first_matches].
  destruct (3 <=? List.length (Str.stripped_parts sep text)); [|apply IH].
  cbn [settle]. rewrite <- attempt_spec.
  destruct (clears_threshold
              (art (inline_attempt (Str.stripped_parts sep text) st)));
    [reflexivity | apply IH].
Qed.

Lemma try_strategies_spec text page_num :
  art (fst (try_strategies text (start text page_num)))
  = first_match_record text (page_num + 1)
  /\ snd (try_strategies text (start text page_num))
     = clears_threshold (first_match_record text (page_num + 1)).
Proof.
  rewrite try_strategies_eq. unfold first_match_record.
  rewrite linebreak_snd, <- linebreak_spec.
  set (A := parse_artwork_linebreak_format text (start text page_num)).
  destruct (clears_threshold (art (fst A))) eqn:EA.
  - cbn [fst snd]. split; [reflexivity | symmetry; exact EA].
  - unfold parse_artwork_inline_format.
    rewrite inline_loop_flag by exact EA.
    rewrite inline_loop_settles. split; reflexivity.
Qed.

(** On [two_years] the first-match record has the first year of the first
    line that has one. *)
Example first_match_record_two_years :
  year (first_match_record two_years 1) = "1999"%string
  /\ medium (first_match_record two_years 1) = "oil on canvas"%string
  /\ artist (first_match_record two_years 1) = "Jane Doe"%string
  /\ title (first_match_record two_years 1) = "Sunset Over the Bay"%string
  /\ clears_threshold (first_match_record two_years 1) = true.
Proof. vm_compute. repeat split. Qed.

Section FirstMatch.

Variable image_file : string -> nat -> nat -> string -> string.
Variable b64encode : string -> string.

(** C7.  In one call of [extract_artwork_info_from_text], over both
    strategies, all lines, parts and separators: no assignment to title,
    artist, year, dimensions, medium or price is made to a field that
    holds a non-empty value, and each field is assigned at most once.  The
    value assigned is the first match in scan order: with [b] the record
    of [first_match_record], which gives each field its first match among
    the lines, and then among the parts of each separator in turn, a field
    that was assigned holds in [b] the value assigned to it and a field
    that was not is empty in [b]; the call returns a record with the
    fields, score and page of [b] when the score of [b] exceeds 0.6 and
    nothing otherwise.  So a returned record holds, in each field, the
    first (and only) value assigned to it, or nothing when none was.
    [new] is what the call adds to the trace. *)
Theorem first_match_wins :
  forall (self : PDFArtworkExtractor) (text : string) (page_num : nat)
         (image : option Image) (tr : list event),
    let b := first_match_record text (page_num + 1) in
    let r := extract_artwork_info_from_text image_file b64encode
               self text page_num image tr in
    exists new,
      snd r = tr ++ new
      /\ (forall f before v,
            In (Assign f before v) new -> Str.truthy_opt before = false)
      /\ (forall f, List.length (assigned f new) <= 1)
      /\ (forall f, match assigned f new with
                    | [] => is_set f b = false
                    | v :: _ => get_field f b = Some v /\ Str.truthy v = true
                    end)
      /\ (if clears_threshold b
          then exists a, fst r = Some a /\ same_description a b
          else fst r = None)
      /\ (forall a, fst r = Some a ->
            forall f, match assigned f new with
                      | [] => is_set f a = false
                      | v :: _ => get_field f a = Some v /\ Str.truthy v = true
                      end).
Proof.
  intros self text page_num image tr b r.
  destruct (extract_cases image_file b64encode self text page_num image tr)
    as (w & Htr & Hw & Hr).
  fold r in Htr, Hr.
  pose proof (coherent_try_strategies text page_num) as [Hno Hag].
  destruct (try_strategies_spec text page_num) as [Hb Hok].
  fold b in Hb, Hok. rewrite Hok, Hb in Hr.
  set (st := fst (try_strategies text (start text page_num))) in *.
  exists (trace st ++ w). split; [exact Htr|].
  assert (Hasg : forall f, assigned f (trace st ++ w) = assigned f (trace st)).
  { intros f. rewrite assigned_app.
    destruct Hw as [->|(p & q & ->)]; apply app_nil_r. }
  assert (Hfb : forall f, match assigned f (trace st ++ w) with
                          | [] => is_set f b = false
                          | v :: _ =>
                              get_field f b = Some v /\ Str.truthy v = true
                          end).
  { intros f. rewrite Hasg. specialize (Hag f). unfold agrees in Hag.
    rewrite Hb in Hag. unfold is_set.
    destruct (assigned f (trace st)) as [|v1 [|v2 l]];
      [exact Hag | exact Hag | contradiction]. }
  split; [|split; [|split; [exact Hfb | split; [exact Hr|]]]].
  - intros f before v Hin. apply in_app_or in Hin. destruct Hin as [Hin|Hin].
    + rewrite forallb_forall in Hno. apply Hno in Hin. simpl in Hin.
      apply negb_true_iff in Hin. exact Hin.
    + destruct Hw as [->|(p & q & ->)]; simpl in Hin;
        [contradiction | destruct Hin as [Hin|[]]; discriminate Hin].
  - intros f. rewrite Hasg. specialize (Hag f). unfold agrees in Hag.
    destruct (assigned f (trace st)) as [|v1 [|v2 l]]; simpl; lia.
  - intros a Ha f. specialize (Hfb f).
    destruct (clears_threshold b); [|congruence].
    destruct Hr as (a' & Ha' & Hd & _). rewrite Ha in Ha'. injection Ha' as <-.
    unfold is_set in *. rewrite (Hd f). exact Hfb.
Qed.

End FirstMatch.

(** The call itself on [two_years]: the year returned is the first one. *)
Example extract_two_years :
  option_map year
    (fst (extract_artwork_info_from_text sample_image_file sample_b64encode
            (mkExtractor "cat" catalog []) two_years 0 None []))
  = Some "1999"%string.
Proof. vm_compute. reflexivity. Qed.
